(** * select.js: waiting for an element to appear in, or leave, the DOM

    A shallow embedding of [lib.ts]: the two public entry points [select]
    and [waitForRemovalFromDom], and the four implementations they dispatch
    to ([selectWithInterval], [selectOnlyObserver],
    [waitForRemovalFromDomWithInterval],
    [waitForRemovalFromDomWithMutationObserver]).

    The host (browser) is modelled as an explicit [World]: the current DOM
    under the ancestor, the connectivity of the tracked element, the timer
    and observer the call has registered, the promise it created, and the
    closure variable [cleanupFunction].  Callbacks are run by an event loop
    ([fire], [run]) that delivers one host event at a time, each callback
    running to completion.  Delays are stored and handed to the host,
    never computed with, and the loop delivers events in any order the
    host allows rather than by the clock.

    The selectors of this development are the selectors the host accepts.
    For a string that is no selector the host's [querySelector] and
    [matches] throw a [SyntaxError]: [select] is then rejected at its first
    statement, before anything is armed.  That path is not part of the
    model, and a theorem that speaks of a call is about a call whose first
    statement returned.  The message of an error is the host's own and no
    theorem depends on it.  *)

From Stdlib Require Import List String ZArith Bool Lia.
Import ListNotations.
Open Scope string_scope.
Open Scope list_scope.
Open Scope Z_scope.

Set Implicit Arguments.

(** ** The DOM *)

(** A node is an element (with a tag name, an id and children) or a text
    node.  [node instanceof Element] is [isElement]. *)
#[warnings="-register-all"] Inductive Node : Type :=
| ElementNode (tag : string) (ident : string) (children : list Node)
| TextNode (data : string).

Definition isElement (n : Node) : bool :=
  match n with
  | ElementNode _ _ _ => true
  | TextNode _ => false
  end.

(** The descendants of a node in tree order (the node itself excluded). *)
Fixpoint descendants (n : Node) : list Node :=
  match n with
  | ElementNode _ _ cs => flat_map (fun c => c :: descendants c) cs
  | TextNode _ => []
  end.

(** JavaScript numbers that the program only stores and hands to the host
    as delays in milliseconds. *)
Definition number := Z.

(** One [MutationRecord] as far as the program reads it. *)
Record MutationRecord : Type := mkRecord {
  target : Node;
  addedNodes : list Node
}.

(** The values the two entry points can hand to their caller. *)
Inductive value : Type :=
| VElement (n : Node)
| VNull
| VUndefined
| VBool (b : bool).

(** State of the promise built by [new Promise((resolve, reject) => ...)]. *)
Inductive PromiseState : Type :=
| Pending
| Resolved (v : value)
| Rejected.

(** The callbacks the program hands to the host, one constructor per
    closure of the source. *)
Inductive callback : Type :=
| SelectObserverCb (selector : string)
| SelectIntervalCb (selector : string)
| RemovalObserverCb
| RemovalIntervalCb
| TimeoutCb.

(** A timer registered with [setInterval] or [setTimeout]. *)
Record Timer : Type := mkTimer {
  handler : callback;
  delay : number;
  active : bool
}.

Inductive ObserveTarget : Type :=
| OnAncestor
| OnDocument.

(** A [MutationObserver]: created with its callback, then connected by
    [observe] and disconnected by [disconnect]. *)
Record Observer : Type := mkObserver {
  obsHandler : callback;
  observed : option ObserveTarget;
  connected : bool
}.

(** The body of a [cleanupFunction] closure: the host calls it makes, in
    order. *)
Inductive CleanupAction : Type :=
| ClearInterval
| ClearTimeout
| Disconnect.

Inductive error : Type :=
| TypeError (msg : string).

(** A log of what the program did, kept for the proofs and read by no
    program code: each call of [resolve] and [reject], with a flag telling
    whether some timer or observer of the call was still armed at that
    moment, each node handed to [isSearchedElement], and each exception a
    callback let escape. *)
Inductive effect : Type :=
| EResolve (v : value) (stillArmed : bool)
| EReject (stillArmed : bool)
| ECheck (n : Node)
| EUncaught (e : error).

Record World : Type := mkWorld {
  ancestorNow : Node;
  isConnected : bool;
  intervalT : option Timer;
  timeoutT : option Timer;
  observer : option Observer;
  cleanupFunction : option (list CleanupAction);
  promise : PromiseState;
  trace : list effect
}.

(** A page on which the call has not registered anything yet. *)
Definition freshWorld (root : Node) (conn : bool) : World :=
  mkWorld root conn None None None None Pending [].

(** ** Record updates *)

Definition withIntervalT (t : option Timer) (w : World) : World :=
  mkWorld (ancestorNow w) (isConnected w) t (timeoutT w) (observer w)
          (cleanupFunction w) (promise w) (trace w).

Definition withTimeoutT (t : option Timer) (w : World) : World :=
  mkWorld (ancestorNow w) (isConnected w) (intervalT w) t (observer w)
          (cleanupFunction w) (promise w) (trace w).

Definition withObserver (o : option Observer) (w : World) : World :=
  mkWorld (ancestorNow w) (isConnected w) (intervalT w) (timeoutT w) o
          (cleanupFunction w) (promise w) (trace w).

Definition withCleanupFunction (c : option (list CleanupAction)) (w : World) : World :=
  mkWorld (ancestorNow w) (isConnected w) (intervalT w) (timeoutT w) (observer w)
          c (promise w) (trace w).

Definition withPromise (p : PromiseState) (w : World) : World :=
  mkWorld (ancestorNow w) (isConnected w) (intervalT w) (timeoutT w) (observer w)
          (cleanupFunction w) p (trace w).

Definition withTrace (l : list effect) (w : World) : World :=
  mkWorld (ancestorNow w) (isConnected w) (intervalT w) (timeoutT w) (observer w)
          (cleanupFunction w) (promise w) l.

Definition withAncestorNow (n : Node) (w : World) : World :=
  mkWorld n (isConnected w) (intervalT w) (timeoutT w) (observer w)
          (cleanupFunction w) (promise w) (trace w).

Definition withIsConnected (b : bool) (w : World) : World :=
  mkWorld (ancestorNow w) b (intervalT w) (timeoutT w) (observer w)
          (cleanupFunction w) (promise w) (trace w).

(** ** Host primitives *)

Definition timerActive (t : option Timer) : bool :=
  match t with
  | Some tm => active tm
  | None => false
  end.

Definition observerConnected (o : option Observer) : bool :=
  match o with
  | Some ob => connected ob
  | None => false
  end.

(** Is some timer or observer of the call still able to fire? *)
Definition anyArmed (w : World) : bool :=
  timerActive (intervalT w) || timerActive (timeoutT w)
  || observerConnected (observer w).

Definition stopTimer (t : option Timer) : option Timer :=
  match t with
  | Some tm => Some (mkTimer (handler tm) (delay tm) false)
  | None => None
  end.

(** [clearInterval(intervalId)] *)
Definition clearInterval (w : World) : World :=
  withIntervalT (stopTimer (intervalT w)) w.

(** [clearTimeout(timeoutId)] *)
Definition clearTimeout (w : World) : World :=
  withTimeoutT (stopTimer (timeoutT w)) w.

(** [observer.disconnect()] *)
Definition disconnect (w : World) : World :=
  withObserver
    (match observer w with
     | Some ob => Some (mkObserver (obsHandler ob) (observed ob) false)
     | None => None
     end) w.

Definition runAction (a : CleanupAction) (w : World) : World :=
  match a with
  | ClearInterval => clearInterval w
  | ClearTimeout => clearTimeout w
  | Disconnect => disconnect w
  end.

(** Running the body of a [cleanupFunction] closure. *)
Definition runCleanup (acts : list CleanupAction) (w : World) : World :=
  fold_left (fun w' a => runAction a w') acts w.

(** ** Computations that may throw *)

Inductive result (A : Type) : Type :=
| Ok (a : A) (w : World)
| Throw (e : error) (w : World).

Arguments Throw {A} e w.

Definition exec (A : Type) : Type := World -> result A.

Definition ret {A : Type} (a : A) : exec A := fun w => Ok a w.

Definition bind {A B : Type} (m : exec A) (k : A -> exec B) : exec B :=
  fun w =>
    match m w with
    | Ok a w' => k a w'
    | Throw e w' => Throw e w'
    end.

Declare Scope exec_scope.
Delimit Scope exec_scope with exec.
Notation "x <- m ;; k" := (bind m (fun x => k))
  (at level 61, m at next level, right associativity) : exec_scope.
Notation "m ;; k" := (bind m (fun _ => k))
  (at level 61, right associativity) : exec_scope.
Open Scope exec_scope.

Definition worldOf {A : Type} (r : result A) : World :=
  match r with
  | Ok _ w => w
  | Throw _ w => w
  end.

Definition modify (f : World -> World) : exec unit := fun w => Ok tt (f w).

(** [setInterval(cb, delay)] *)
Definition setInterval (cb : callback) (d : number) : exec unit :=
  modify (withIntervalT (Some (mkTimer cb d true))).

(** [setTimeout(cb, delay)] *)
Definition setTimeout (cb : callback) (d : number) : exec unit :=
  modify (withTimeoutT (Some (mkTimer cb d true))).

(** [new MutationObserver(cb)] *)
Definition newMutationObserver (cb : callback) : exec unit :=
  modify (withObserver (Some (mkObserver cb None false))).

(** [observer.observe(target, {childList: true, subtree: true, ...})] *)
Definition observe (t : ObserveTarget) : exec unit :=
  modify (fun w =>
    withObserver
      (match observer w with
       | Some ob => Some (mkObserver (obsHandler ob) (Some t) true)
       | None => None
       end) w).

(** [cleanupFunction = () => { ... }] *)
Definition assignCleanupFunction (acts : list CleanupAction) : exec unit :=
  modify (withCleanupFunction (Some acts)).

(** [cleanupFunction()]: calling the variable while it is still
    [undefined] throws. *)
Definition callCleanupFunction : exec unit :=
  fun w =>
    match cleanupFunction w with
    | Some acts => Ok tt (runCleanup acts w)
    | None => Throw (TypeError "cleanupFunction is not a function") w
    end.

Definition settle (p : PromiseState) (w : World) : World :=
  match promise w with
  | Pending => withPromise p w
  | _ => w
  end.

(** [resolve(v)]: settles the promise if it is still pending; the call
    is logged either way. *)
Definition resolve (v : value) : exec unit :=
  modify (fun w => withTrace (trace w ++ [EResolve v (anyArmed w)]) (settle (Resolved v) w)).

(** [reject()] *)
Definition reject : exec unit :=
  modify (fun w => withTrace (trace w ++ [EReject (anyArmed w)]) (settle Rejected w)).

Definition logCheck (n : Node) : exec unit :=
  modify (fun w => withTrace (trace w ++ [ECheck n]) w).

Definition readIsConnected : exec bool := fun w => Ok (isConnected w) w.

(** [new Promise(executor)]: the promise starts pending and the executor
    runs at once, to its end; an exception it lets escape rejects the
    promise. *)
Definition newPromise (executor : exec unit) : exec unit :=
  fun w =>
    match executor (withPromise Pending w) with
    | Ok _ w' => Ok tt w'
    | Throw _ w' => reject w'
    end.

(** The selector engine of the host: [node.matches(selector)], for the
    selectors the host accepts. *)
Class SelectorEngine : Type := {
  matches : string -> Node -> bool
}.

(** ** The program *)

(** The [strategy] descriptor object.  A field that is absent reads as
    [undefined], here [None]. *)
Record Strategy : Type := mkStrategy {
  variant : string;
  timeoutInMil : option number;
  intervalInMil : option number
}.

(** What a caller can pass as the [strategy] argument: nothing (the
    default parameter applies), a bare number, a descriptor object (its
    [variant] any string), or [null]. *)
Inductive StrategyArg : Type :=
| ArgOmitted
| ArgNumber (n : number)
| ArgObject (s : Strategy)
| ArgNull.

(** Where the body of one of the [async] functions stands once its
    synchronous part has run: it has returned a value, or it is suspended
    at [return await promise] inside a [try] whose [catch] returns
    [onReject]. *)
Inductive Call : Type :=
| Return (v : value)
| AwaitCatch (onReject : value).

(** What the caller of an [async] function observes. *)
Inductive Outcome : Type :=
| Fulfilled (v : value)
| RejectedWith (e : error)
| StillPending.

(** [a ?? b] *)
Definition nullish (a : option number) (b : number) : number :=
  match a with
  | Some x => x
  | None => b
  end.

Section Program.

Context {engine : SelectorEngine}.

(** [root.querySelector(selector)], for a selector the host accepts: the
    first descendant element of the root, in tree order, that matches the
    selector. *)
Definition querySelector (selector : string) (root : Node) : option Node :=
  find (fun n => isElement n && matches selector n) (descendants root).

Definition querySelectorNow (selector : string) : exec (option Node) :=
  fun w => Ok (querySelector selector (ancestorNow w)) w.

(** *** [selectOnlyObserver] *)

(** The inner function [isSearchedElement] of the observer callback; the
    first line only logs the call. *)
Definition isSearchedElement (selector : string) (node : Node) : exec bool :=
  logCheck node ;;
  if negb (isElement node) then ret false
  else if matches selector node then
    callCleanupFunction ;;
    resolve (VElement node) ;;
    ret true
  else ret false.

(** [for (const child of mutation.addedNodes)]: [true] when the loop left
    the callback through [return true]. *)
Fixpoint forAddedNodes (selector : string) (children : list Node) : exec bool :=
  match children with
  | [] => ret false
  | child :: rest =>
      found <- isSearchedElement selector child ;;
      if found then ret true else forAddedNodes selector rest
  end.

(** [for (const mutation of mutationRecords)] *)
Fixpoint selectObserverCallback (selector : string)
         (mutationRecords : list MutationRecord) : exec unit :=
  match mutationRecords with
  | [] => ret tt
  | mutation :: rest =>
      found <- isSearchedElement selector (target mutation) ;;
      if found then ret tt
      else
        returned <- forAddedNodes selector (addedNodes mutation) ;;
        if returned then ret tt
        else selectObserverCallback selector rest
  end.

(** The [setTimeout] callback, the same closure in all four functions. *)
Definition timeoutCallback : exec unit :=
  callCleanupFunction ;;
  reject.

(** The executor of [selectOnlyObserver] up to, and excluding, the
    assignment of [cleanupFunction] at its bottom. *)
Definition selectOnlyObserverArm (selector : string) (timeout : number) : exec unit :=
  newMutationObserver (SelectObserverCb selector) ;;
  observe OnAncestor ;;
  setTimeout TimeoutCb timeout.

Definition selectOnlyObserverExecutor (selector : string) (timeout : number) : exec unit :=
  selectOnlyObserverArm selector timeout ;;
  assignCleanupFunction [ClearTimeout; Disconnect].

Definition selectOnlyObserver (selector : string) (options : Strategy) : exec Call :=
  let timeout := nullish (timeoutInMil options) 10000 in
  newPromise (selectOnlyObserverExecutor selector timeout) ;;
  ret (AwaitCatch VNull).

(** *** [selectWithInterval] *)

Definition selectIntervalCallback (selector : string) : exec unit :=
  element <- querySelectorNow selector ;;
  match element with
  | Some e =>
      callCleanupFunction ;;
      resolve (VElement e)
  | None => ret tt
  end.

Definition selectWithIntervalArm (selector : string) (timeout interval : number) : exec unit :=
  setInterval (SelectIntervalCb selector) interval ;;
  setTimeout TimeoutCb timeout.

Definition selectWithIntervalExecutor (selector : string) (timeout interval : number) : exec unit :=
  selectWithIntervalArm selector timeout interval ;;
  assignCleanupFunction [ClearInterval; ClearTimeout].

Definition selectWithInterval (selector : string) (options : Strategy) : exec Call :=
  let timeout := nullish (timeoutInMil options) 10000 in
  let interval := nullish (intervalInMil options) 50 in
  newPromise (selectWithIntervalExecutor selector timeout interval) ;;
  ret (AwaitCatch VNull).

(** *** [waitForRemovalFromDomWithMutationObserver] *)

Definition removalObserverCallback : exec unit :=
  conn <- readIsConnected ;;
  if negb conn then
    callCleanupFunction ;;
    resolve (VBool true)
  else ret tt.

Definition removalObserverArm (timeout : number) : exec unit :=
  newMutationObserver RemovalObserverCb ;;
  observe OnDocument ;;
  setTimeout TimeoutCb timeout.

Definition removalObserverExecutor (timeout : number) : exec unit :=
  removalObserverArm timeout ;;
  assignCleanupFunction [ClearTimeout; Disconnect].

(** A parameter with a default value takes it when the argument is
    [undefined]. *)
Definition waitForRemovalFromDomWithMutationObserver (timeout : option number) : exec Call :=
  let timeout := nullish timeout 10000 in
  newPromise (removalObserverExecutor timeout) ;;
  ret (AwaitCatch (VBool false)).

(** *** [waitForRemovalFromDomWithInterval] *)

Definition removalIntervalCallback : exec unit :=
  conn <- readIsConnected ;;
  if negb conn then
    callCleanupFunction ;;
    resolve (VBool true)
  else ret tt.

Definition removalIntervalArm (timeout interval : number) : exec unit :=
  setInterval RemovalIntervalCb interval ;;
  setTimeout TimeoutCb timeout.

Definition removalIntervalExecutor (timeout interval : number) : exec unit :=
  removalIntervalArm timeout interval ;;
  assignCleanupFunction [ClearInterval; ClearTimeout].

Definition waitForRemovalFromDomWithInterval (timeout interval : option number) : exec Call :=
  let timeout := nullish timeout 10000 in
  let interval := nullish interval 50 in
  newPromise (removalIntervalExecutor timeout interval) ;;
  ret (AwaitCatch (VBool false)).

(** *** The public entry points *)

Definition defaultStrategy : Strategy :=
  mkStrategy "interval" (Some 10000) (Some 50).

(** [typeof strategy === "number" ? {variant: "interval", timeoutInMil: strategy} : strategy],
    after the default parameter; [None] stands for [null]. *)
Definition strategyParsed (strategy : StrategyArg) : option Strategy :=
  match strategy with
  | ArgOmitted => Some defaultStrategy
  | ArgNumber n => Some (mkStrategy "interval" (Some n) None)
  | ArgObject s => Some s
  | ArgNull => None
  end.

(** Reading [strategyParsed.variant]; on [null] the property access
    throws a [TypeError], whose message differs from host to host. *)
Definition readVariant (s : option Strategy) : exec Strategy :=
  fun w =>
    match s with
    | Some st => Ok st w
    | None => Throw (TypeError "Cannot read properties of null") w
    end.

Definition select (selector : string) (strategy : StrategyArg) : exec Call :=
  early <- querySelectorNow selector ;;
  match early with
  | Some e => ret (Return (VElement e))
  | None =>
      parsed <- readVariant (strategyParsed strategy) ;;
      if String.eqb (variant parsed) "interval" then
        selectWithInterval selector parsed
      else if String.eqb (variant parsed) "observer" then
        selectOnlyObserver selector parsed
      else ret (Return VUndefined)
  end.

Definition waitForRemovalFromDom (strategy : StrategyArg) : exec Call :=
  conn <- readIsConnected ;;
  if negb conn then ret (Return (VBool true))
  else
    parsed <- readVariant (strategyParsed strategy) ;;
    if String.eqb (variant parsed) "interval" then
      waitForRemovalFromDomWithInterval (timeoutInMil parsed) (intervalInMil parsed)
    else if String.eqb (variant parsed) "observer" then
      waitForRemovalFromDomWithMutationObserver (timeoutInMil parsed)
    else ret (Return VUndefined).

(** ** The event loop *)

(** What the host can do between two runs of program code: the page
    changes the subtree under the ancestor, the tracked element is attached
    or detached, the interval or the timeout comes due, or the observer is
    notified with a batch of records. *)
Inductive event : Type :=
| DomChange (root : Node)
| ConnectedChange (b : bool)
| IntervalFires
| TimeoutFires
| ObserverNotified (mutationRecords : list MutationRecord).

Definition runCallback (cb : callback) (mutationRecords : list MutationRecord) : exec unit :=
  match cb with
  | SelectObserverCb selector => selectObserverCallback selector mutationRecords
  | SelectIntervalCb selector => selectIntervalCallback selector
  | RemovalObserverCb => removalObserverCallback
  | RemovalIntervalCb => removalIntervalCallback
  | TimeoutCb => timeoutCallback
  end.

(** A callback runs to completion; an exception it lets escape is reported
    and the loop goes on. *)
Definition invoke (cb : callback) (mutationRecords : list MutationRecord) (w : World) : World :=
  match runCallback cb mutationRecords w with
  | Ok _ w' => w'
  | Throw e w' => withTrace (trace w' ++ [EUncaught e]) w'
  end.

(** One turn of the loop.  The host calls a timer callback only while the
    timer is active, a timeout at most once, and an observer callback only
    while the observer is connected. *)
Definition fire (ev : event) (w : World) : World :=
  match ev with
  | DomChange root => withAncestorNow root w
  | ConnectedChange b => withIsConnected b w
  | IntervalFires =>
      match intervalT w with
      | Some tm => if active tm then invoke (handler tm) [] w else w
      | None => w
      end
  | TimeoutFires =>
      match timeoutT w with
      | Some tm => if active tm then invoke (handler tm) [] (clearTimeout w) else w
      | None => w
      end
  | ObserverNotified mutationRecords =>
      match observer w with
      | Some ob => if connected ob then invoke (obsHandler ob) mutationRecords w else w
      | None => w
      end
  end.

Definition run (evs : list event) (w : World) : World :=
  fold_left (fun w' ev => fire ev w') evs w.

(** What the caller of the [async] function sees after the synchronous
    part produced [r] and the event loop then delivered [evs]. *)
Definition observes (r : result Call) (evs : list event) : Outcome :=
  match r with
  | Throw e _ => RejectedWith e
  | Ok (Return v) _ => Fulfilled v
  | Ok (AwaitCatch onReject) w =>
      match promise (run evs w) with
      | Pending => StillPending
      | Resolved v => Fulfilled v
      | Rejected => Fulfilled onReject
      end
  end.

End Program.

(** ** Reading traces and batches *)

Definition isSettle (e : effect) : bool :=
  match e with
  | EResolve _ _ | EReject _ => true
  | _ => false
  end.

(** The number of calls of [resolve] and [reject] so far. *)
Definition settleCount (l : list effect) : nat :=
  List.length (filter isSettle l).

(** Was every call of [resolve] and [reject] made with nothing armed? *)
Definition settledAfterCleanup (l : list effect) : bool :=
  forallb (fun e =>
    match e with
    | EResolve _ armed | EReject armed => negb armed
    | _ => true
    end) l.

Definition noUncaught (l : list effect) : bool :=
  forallb (fun e => match e with EUncaught _ => false | _ => true end) l.

Definition timeoutDelay (w : World) : option number :=
  option_map delay (timeoutT w).

Definition intervalDelay (w : World) : option number :=
  option_map delay (intervalT w).

(** The nodes of a batch in the order of the records, the target of each
    record before the nodes that record added. *)
Definition batchNodes (mutationRecords : list MutationRecord) : list Node :=
  flat_map (fun m => target m :: addedNodes m) mutationRecords.

Definition addChecks (ns : list Node) (w : World) : World :=
  withTrace (trace w ++ map ECheck ns) w.

(** The strategies of the declared type [Strategy | number]. *)
Definition wellTyped (strategy : StrategyArg) : bool :=
  match strategy with
  | ArgOmitted | ArgNumber _ => true
  | ArgObject s => String.eqb (variant s) "interval" || String.eqb (variant s) "observer"
  | ArgNull => false
  end.

(** The world after [cleanupFunction(); resolve(v)] and after
    [cleanupFunction(); reject()], the cleanup closure being [acts]. *)
Definition delivered (acts : list CleanupAction) (v : value) (w : World) : World :=
  worldOf (resolve v (runCleanup acts w)).

Definition timedOut (acts : list CleanupAction) (w : World) : World :=
  worldOf (reject (runCleanup acts w)).

Section Scan.

Context {engine : SelectorEngine}.

Definition isMatch (selector : string) (n : Node) : bool :=
  isElement n && matches selector n.

(** The nodes up to and including the first match, and that match. *)
Fixpoint scan (selector : string) (ns : list Node) : list Node * option Node :=
  match ns with
  | [] => ([], None)
  | n :: rest =>
      if isMatch selector n then ([n], Some n)
      else let (checked, found) := scan selector rest in (n :: checked, found)
  end.

(** What a scan of [ns] by [isSearchedElement] does to the world. *)
Definition afterScan (selector : string) (acts : list CleanupAction)
           (ns : list Node) (w : World) : World :=
  match scan selector ns with
  | (checked, Some n) => delivered acts (VElement n) (addChecks checked w)
  | (checked, None) => addChecks checked w
  end.

Definition scanFound (selector : string) (ns : list Node) : bool :=
  match snd (scan selector ns) with
  | Some _ => true
  | None => false
  end.

End Scan.

(** ** The worlds the four executors build *)

Definition armedInterval (cb : callback) (timeout interval : number) (w : World) : World :=
  mkWorld (ancestorNow w) (isConnected w)
          (Some (mkTimer cb interval true))
          (Some (mkTimer TimeoutCb timeout true))
          (observer w) (Some [ClearInterval; ClearTimeout]) Pending (trace w).

Definition armedObserver (cb : callback) (t : ObserveTarget) (timeout : number)
           (w : World) : World :=
  mkWorld (ancestorNow w) (isConnected w) (intervalT w)
          (Some (mkTimer TimeoutCb timeout true))
          (Some (mkObserver cb (Some t) true))
          (Some [ClearTimeout; Disconnect]) Pending (trace w).

(** ** The invariant of the event loop *)

(** The closure variable is unassigned and nothing is armed, or it holds
    one of the two closures of the source and what that closure does not
    stop is not armed. *)
Definition cleanupCovers (w : World) : Prop :=
  (cleanupFunction w = None /\ anyArmed w = false)
  \/ (cleanupFunction w = Some [ClearInterval; ClearTimeout]
      /\ observerConnected (observer w) = false)
  \/ (cleanupFunction w = Some [ClearTimeout; Disconnect]
      /\ timerActive (intervalT w) = false).

Definition timeoutHandlerOk (w : World) : Prop :=
  forall tm, timeoutT w = Some tm -> handler tm = TimeoutCb.

(** While a callback of the call runs, before it has settled the promise. *)
Record Running (w : World) : Prop := mkRunning {
  running_covers : cleanupCovers w;
  running_timeout : timeoutHandlerOk w;
  running_promise : promise w = Pending;
  running_count : settleCount (trace w) = 0%nat;
  running_clean : settledAfterCleanup (trace w) = true;
  running_caught : noUncaught (trace w) = true
}.

(** Between two callbacks, the promise still pending. *)
Record Waiting (w : World) : Prop := mkWaiting {
  waiting_running : Running w;
  waiting_timeout : cleanupFunction w <> None -> timerActive (timeoutT w) = true
}.

(** After the one call of [resolve] or [reject]. *)
Record Done (w : World) : Prop := mkDone {
  done_promise : promise w <> Pending;
  done_disarmed : anyArmed w = false;
  done_count : settleCount (trace w) = 1%nat;
  done_clean : settledAfterCleanup (trace w) = true;
  done_caught : noUncaught (trace w) = true
}.

Definition Inv (w : World) : Prop := Waiting w \/ Done w.

Ltac world w :=
  destruct w as [?root ?conn [[?hi ?di ?ai]|] [[?ht ?dt ?at']|] [[?ho ?to ?co]|] ?cf ?p ?tr].

Ltac bools :=
  repeat match goal with b : bool |- _ => destruct b end;
  simpl in *; try congruence; auto.

(** ** The shape of a call *)

(** The three ways the synchronous part of an entry point can end: it
    returned a value, it threw, or it is suspended on a promise whose
    executor has run to its end. *)
Definition callShape (onReject : value) (r : result Call) : Prop :=
  (exists v w, r = Ok (Return v) w /\ Waiting w)
  \/ (exists e w, r = Throw e w /\ Waiting w)
  \/ (exists w, r = Ok (AwaitCatch onReject) w /\ Waiting w /\ cleanupFunction w <> None).

(** The call is over in [w] with the promise in state [p]: nothing of it
    is armed any more, and [resolve] or [reject] was called once in all,
    with nothing armed at that moment. *)
Definition settledCleanly (p : PromiseState) (w : World) : Prop :=
  promise w = p /\ anyArmed w = false /\
  settleCount (trace w) = 1%nat /\ settledAfterCleanup (trace w) = true.

(** ** A sample page *)

(** A selector engine that knows id selectors only. *)
Definition idEngine : SelectorEngine :=
  {| matches := fun selector n =>
       match n with
       | ElementNode _ ident _ => String.eqb selector ("#" ++ ident)%string
       | TextNode _ => false
       end |}.

Definition sampleSpan : Node := ElementNode "span" "test" [].
Definition sampleBox : Node := ElementNode "div" "box" [TextNode "hello"; sampleSpan].
Definition emptyBody : Node := ElementNode "body" "root" [].
Definition bodyWithBox : Node := ElementNode "body" "root" [sampleBox].
Definition bodyWithSpan : Node := ElementNode "body" "root" [sampleSpan].

(** [body.appendChild(box)] as the observer on [body] is told of it: one
    record, its target the parent, its added nodes the appended node. *)
Definition appendBoxRecord : MutationRecord := mkRecord bodyWithBox [sampleBox].
Definition appendSpanRecord : MutationRecord := mkRecord bodyWithSpan [sampleSpan].

Definition observerStrategy : StrategyArg := ArgObject (mkStrategy "observer" None None).
Definition intervalStrategy : StrategyArg := ArgObject (mkStrategy "interval" None None).
Definition unknownStrategy : StrategyArg := ArgObject (mkStrategy "polling" (Some 1000) None).

(** ** The page, seen apart from the call *)

(** What the program reads of the page: the subtree under the ancestor and
    the connectivity of the tracked element. *)
Definition pageOf (w : World) : Node * bool := (ancestorNow w, isConnected w).

Definition pageStep (p : Node * bool) (ev : event) : Node * bool :=
  match ev with
  | DomChange root => (root, snd p)
  | ConnectedChange b => (fst p, b)
  | _ => p
  end.

(** The page after the events, as the page events alone set it. *)
Definition pageAfter (evs : list event) (p : Node * bool) : Node * bool :=
  fold_left pageStep evs p.

Definition isNotification (ev : event) : bool :=
  match ev with
  | ObserverNotified _ => true
  | _ => false
  end.

Definition isTick (ev : event) : bool :=
  match ev with
  | IntervalFires => true
  | _ => false
  end.

(** A property of the world that no host call made by a callback can
    break: logging, settling the promise, and the three cleanup actions. *)
Record Stable (P : World -> Prop) : Prop := mkStable {
  stable_trace : forall l w, P w -> P (withTrace l w);
  stable_promise : forall p w, P w -> P (withPromise p w);
  stable_action : forall a w, P w -> P (runAction a w)
}.

(** The timers, the observer and the closure variable of [w'] are those
    of [w]. *)
Definition sameResources (w w' : World) : Prop :=
  intervalT w' = intervalT w /\ timeoutT w' = timeoutT w /\
  observer w' = observer w /\ cleanupFunction w' = cleanupFunction w.

(** Which implementation a strategy argument selects. *)
Definition usesInterval (strategy : StrategyArg) : bool :=
  match strategyParsed strategy with
  | Some st => String.eqb (variant st) "interval"
  | None => false
  end.

Definition usesObserver (strategy : StrategyArg) : bool :=
  match strategyParsed strategy with
  | Some st => negb (String.eqb (variant st) "interval") && String.eqb (variant st) "observer"
  | None => false
  end.

(** A computation keeps [P] when it ends, normally or by throwing, in a
    world where [P] still holds. *)
Definition keeps (P : World -> Prop) {A : Type} (m : exec A) : Prop :=
  forall w, P w -> P (worldOf (m w)).

Definition verdict (found : option value) : PromiseState :=
  match found with
  | Some v => Resolved v
  | None => Pending
  end.

Section Detects.

Context {engine : SelectorEngine}.

(** What a detector callback finds in the world it runs in, if anything:
    the value it resolves the promise with. *)
Definition detects (cb : callback) (w : World)
           (mutationRecords : list MutationRecord) : option value :=
  match cb with
  | SelectIntervalCb selector =>
      option_map VElement (querySelector selector (ancestorNow w))
  | SelectObserverCb selector =>
      option_map VElement (snd (scan selector (batchNodes mutationRecords)))
  | RemovalObserverCb | RemovalIntervalCb =>
      if isConnected w then None else Some (VBool true)
  | TimeoutCb => None
  end.

End Detects.

(** ** The earlier version of the library *)

(** The host's test for [node instanceof HTMLElement], beyond being an
    element: the node is in the HTML namespace. *)
Class HtmlNamespace : Type := {
  inHtmlNamespace : Node -> bool
}.

(** The first [lib.ts]: [select] and [waitForRemovalFromDom] take a bare
    timeout, there is no interval strategy, and [selectOnlyObserver] is
    exported.  The callback tags [SelectObserverCb], [RemovalObserverCb]
    and [TimeoutCb] stand for the closures of this version. *)
Module Legacy.

Section Program.

Context {engine : SelectorEngine} {html : HtmlNamespace}.

(** [node instanceof HTMLElement] *)
Definition isHTMLElement (n : Node) : bool :=
  isElement n && inHtmlNamespace n.

(** The inner function [isSearchedElement]; the first line only logs the
    call. *)
Definition isSearchedElement (selector : string) (node : Node) : exec bool :=
  logCheck node ;;
  if negb (isHTMLElement node) then ret false
  else if matches selector node then
    callCleanupFunction ;;
    resolve (VElement node) ;;
    ret true
  else ret false.

Fixpoint forAddedNodes (selector : string) (children : list Node) : exec bool :=
  match children with
  | [] => ret false
  | child :: rest =>
      found <- isSearchedElement selector child ;;
      if found then ret true else forAddedNodes selector rest
  end.

Fixpoint selectObserverCallback (selector : string)
         (mutationRecords : list MutationRecord) : exec unit :=
  match mutationRecords with
  | [] => ret tt
  | mutation :: rest =>
      found <- isSearchedElement selector (target mutation) ;;
      if found then ret tt
      else
        returned <- forAddedNodes selector (addedNodes mutation) ;;
        if returned then ret tt
        else selectObserverCallback selector rest
  end.

Definition selectOnlyObserverExecutor (selector : string) (timeout : number) : exec unit :=
  newMutationObserver (SelectObserverCb selector) ;;
  observe OnAncestor ;;
  setTimeout TimeoutCb timeout ;;
  assignCleanupFunction [ClearTimeout; Disconnect].

(** [timeoutInMil = 10000]: the default applies when the argument is
    [undefined], here [None]. *)
Definition selectOnlyObserver (selector : string) (timeoutInMil : option number) : exec Call :=
  let timeout := nullish timeoutInMil 10000 in
  newPromise (selectOnlyObserverExecutor selector timeout) ;;
  ret (AwaitCatch VNull).

Definition select (selector : string) (timeoutInMil : option number) : exec Call :=
  let timeout := nullish timeoutInMil 10000 in
  early <- querySelectorNow selector ;;
  match early with
  | Some e => ret (Return (VElement e))
  | None => selectOnlyObserver selector (Some timeout)
  end.

Definition removalObserverCallback : exec unit :=
  conn <- readIsConnected ;;
  if negb conn then
    callCleanupFunction ;;
    resolve (VBool true)
  else ret tt.

Definition removalExecutor (timeout : number) : exec unit :=
  newMutationObserver RemovalObserverCb ;;
  observe OnDocument ;;
  setTimeout TimeoutCb timeout ;;
  assignCleanupFunction [ClearTimeout; Disconnect].

Definition waitForRemovalFromDom (timeoutInMil : option number) : exec Call :=
  let timeout := nullish timeoutInMil 10000 in
  conn <- readIsConnected ;;
  if negb conn then ret (Return (VBool true))
  else
    newPromise (removalExecutor timeout) ;;
    ret (AwaitCatch (VBool false)).

(** The closures of this version; it has no interval callback. *)
Definition runCallback (cb : callback) (mutationRecords : list MutationRecord) : exec unit :=
  match cb with
  | SelectObserverCb selector => selectObserverCallback selector mutationRecords
  | RemovalObserverCb => removalObserverCallback
  | TimeoutCb => timeoutCallback
  | SelectIntervalCb _ | RemovalIntervalCb => ret tt
  end.

Definition invoke (cb : callback) (mutationRecords : list MutationRecord) (w : World) : World :=
  match runCallback cb mutationRecords w with
  | Ok _ w' => w'
  | Throw e w' => withTrace (trace w' ++ [EUncaught e]) w'
  end.

(** One turn of the loop; this version never calls [setInterval], so
    there is no interval to come due. *)
Definition fire (ev : event) (w : World) : World :=
  match ev with
  | DomChange root => withAncestorNow root w
  | ConnectedChange b => withIsConnected b w
  | IntervalFires => w
  | TimeoutFires =>
      match timeoutT w with
      | Some tm => if active tm then invoke (handler tm) [] (clearTimeout w) else w
      | None => w
      end
  | ObserverNotified mutationRecords =>
      match observer w with
      | Some ob => if connected ob then invoke (obsHandler ob) mutationRecords w else w
      | None => w
      end
  end.

Definition run (evs : list event) (w : World) : World :=
  fold_left (fun w' ev => fire ev w') evs w.

Definition observes (r : result Call) (evs : list event) : Outcome :=
  match r with
  | Throw e _ => RejectedWith e
  | Ok (Return v) _ => Fulfilled v
  | Ok (AwaitCatch onReject) w =>
      match promise (run evs w) with
      | Pending => StillPending
      | Resolved v => Fulfilled v
      | Rejected => Fulfilled onReject
      end
  end.

End Program.

End Legacy.

(** The selector engine under which the observer callback of this file
    does what the one of the earlier version does: a node matches when it
    is an [HTMLElement] and matches. *)
Definition htmlOnly (engine : SelectorEngine) (html : HtmlNamespace) : SelectorEngine :=
  {| matches := fun selector n => Legacy.isHTMLElement n && matches selector n |}.

(** The closures a call of the earlier version registers. *)
Definition isLegacyCallback (cb : callback) : bool :=
  match cb with
  | SelectObserverCb _ | RemovalObserverCb | TimeoutCb => true
  | SelectIntervalCb _ | RemovalIntervalCb => false
  end.

Definition isRemovalObserver (cb : callback) : bool :=
  match cb with
  | RemovalObserverCb => true
  | _ => false
  end.

(** The world holds what a call of the earlier version can have
    registered: no interval, the timeout closure on the timeout, and on the
    observer a closure that [okObs] accepts. *)
Definition handlersOk (okObs : callback -> bool) (w : World) : Prop :=
  intervalT w = None /\
  (forall tm, timeoutT w = Some tm -> handler tm = TimeoutCb) /\
  (forall ob, observer w = Some ob -> okObs (obsHandler ob) = true).

(** Every element of the batch is an [HTMLElement]. *)
Definition htmlBatch {html : HtmlNamespace} (mutationRecords : list MutationRecord) : bool :=
  forallb (fun n => implb (isElement n) (inHtmlNamespace n)) (batchNodes mutationRecords).

Definition htmlEvents {html : HtmlNamespace} (evs : list event) : bool :=
  forallb (fun ev =>
    match ev with
    | ObserverNotified mutationRecords => htmlBatch mutationRecords
    | _ => true
    end) evs.

(** A namespace test that takes everything but [svg] and [circle] elements
    for HTML. *)
Definition sampleNamespace : HtmlNamespace :=
  {| inHtmlNamespace := fun n =>
       match n with
       | ElementNode tag _ _ => negb (String.eqb tag "svg" || String.eqb tag "circle")
       | TextNode _ => false
       end |}.

Definition sampleCircle : Node := ElementNode "circle" "test" [].
Definition bodyWithCircle : Node := ElementNode "body" "root" [sampleCircle].
Definition appendCircleRecord : MutationRecord := mkRecord bodyWithCircle [sampleCircle].

(** A [div] that matches the selector ["#test"] itself and gets a child
    that does not. *)
Definition testDiv : Node := ElementNode "div" "test" [].
Definition testDivWithText : Node := ElementNode "div" "test" [TextNode "hello"].
Definition appendTextRecord : MutationRecord := mkRecord testDivWithText [TextNode "hello"].

(** * Proofs *)

(** ** Traces *)

Lemma addChecks_nil (w : World) : addChecks [] w = w.
Proof.
  destruct w; unfold addChecks, withTrace; simpl.
  now rewrite app_nil_r.
Qed.

Lemma addChecks_app (a b : list Node) (w : World) :
  addChecks b (addChecks a w) = addChecks (a ++ b) w.
Proof.
  unfold addChecks, withTrace; simpl.
  now rewrite map_app, app_assoc.
Qed.

Lemma addChecks_cons (n : Node) (ns : list Node) (w : World) :
  addChecks ns (addChecks [n] w) = addChecks (n :: ns) w.
Proof. apply (addChecks_app [n] ns). Qed.

Lemma cleanupFunction_addChecks (ns : list Node) (w : World) :
  cleanupFunction (addChecks ns w) = cleanupFunction w.
Proof. reflexivity. Qed.

Lemma settleCount_app (a b : list effect) :
  settleCount (a ++ b) = (settleCount a + settleCount b)%nat.
Proof. unfold settleCount. now rewrite filter_app, length_app. Qed.

Lemma settleCount_checks (ns : list Node) : settleCount (map ECheck ns) = 0%nat.
Proof. induction ns; simpl; auto. Qed.

Lemma settledAfterCleanup_app (a b : list effect) :
  settledAfterCleanup (a ++ b) = settledAfterCleanup a && settledAfterCleanup b.
Proof. apply forallb_app. Qed.

Lemma settledAfterCleanup_checks (ns : list Node) :
  settledAfterCleanup (map ECheck ns) = true.
Proof. induction ns; simpl; auto. Qed.

Lemma noUncaught_app (a b : list effect) :
  noUncaught (a ++ b) = noUncaught a && noUncaught b.
Proof. apply forallb_app. Qed.

Lemma noUncaught_checks (ns : list Node) : noUncaught (map ECheck ns) = true.
Proof. induction ns; simpl; auto. Qed.

(** ** The observer callback of [select] *)

Section ObserverBatch.

Context {engine : SelectorEngine}.

Lemma scan_app (selector : string) (a b : list Node) :
  scan selector (a ++ b) =
  match scan selector a with
  | (checked, Some n) => (checked, Some n)
  | (checked, None) =>
      let (more, found) := scan selector b in (checked ++ more, found)
  end.
Proof.
  induction a as [|x a IH]; simpl.
  - now destruct (scan selector b).
  - destruct (isMatch selector x); [reflexivity|].
    rewrite IH. destruct (scan selector a) as [checked [n|]]; [reflexivity|].
    now destruct (scan selector b).
Qed.

(** [scan] stops at the first match: what it returns is a prefix of the
    list, none of its nodes but the last matches, and the last one is the
    node found. *)
Lemma scan_found (selector : string) (ns checked : list Node) (n : Node) :
  scan selector ns = (checked, Some n) ->
  exists before rest,
    checked = before ++ [n] /\ ns = checked ++ rest /\
    isMatch selector n = true /\
    forall m, In m before -> isMatch selector m = false.
Proof.
  revert checked. induction ns as [|x ns IH]; simpl; intros checked H.
  - discriminate.
  - destruct (isMatch selector x) eqn:Hx.
    + inversion H; subst. exists [], ns. repeat split; auto.
      intros m [].
    + destruct (scan selector ns) as [c f] eqn:Hs. inversion H; subst.
      destruct (IH c eq_refl) as (before & rest & -> & -> & Hn & Hb).
      exists (x :: before), rest. repeat split; auto.
      intros m [<-|Hm]; auto.
Qed.

Lemma scan_none (selector : string) (ns checked : list Node) :
  scan selector ns = (checked, None) ->
  checked = ns /\ forall m, In m ns -> isMatch selector m = false.
Proof.
  revert checked. induction ns as [|x ns IH]; simpl; intros checked H.
  - inversion H. split; auto. intros m [].
  - destruct (isMatch selector x) eqn:Hx; [discriminate|].
    destruct (scan selector ns) as [c f] eqn:Hs. inversion H; subst.
    destruct (IH c eq_refl) as [-> Hall]. split; auto.
    intros m [<-|Hm]; auto.
Qed.

Lemma isSearchedElement_eval (selector : string) (acts : list CleanupAction)
      (n : Node) (w : World) :
  cleanupFunction w = Some acts ->
  isSearchedElement selector n w =
  Ok (isMatch selector n) (afterScan selector acts [n] w).
Proof.
  intros Hc. unfold isSearchedElement, afterScan, isMatch, bind, logCheck, modify.
  simpl. unfold isMatch.
  destruct (isElement n); simpl; [|reflexivity].
  destruct (matches selector n); simpl; [|reflexivity].
  unfold callCleanupFunction. simpl. rewrite Hc. reflexivity.
Qed.

Lemma forAddedNodes_eval (selector : string) (acts : list CleanupAction)
      (children : list Node) (w : World) :
  cleanupFunction w = Some acts ->
  forAddedNodes selector children w =
  Ok (scanFound selector children) (afterScan selector acts children w).
Proof.
  revert w. induction children as [|c rest IH]; intros w Hc.
  - unfold afterScan, scanFound; simpl. now rewrite addChecks_nil.
  - simpl. unfold bind. rewrite (isSearchedElement_eval selector c w Hc).
    unfold afterScan, scanFound in *. simpl.
    destruct (isMatch selector c) eqn:Hm; [reflexivity|].
    rewrite IH by exact Hc.
    destruct (scan selector rest) as [checked [n|]]; simpl;
      now rewrite addChecks_cons.
Qed.

Lemma selectObserverCallback_eval (selector : string) (acts : list CleanupAction)
      (mutationRecords : list MutationRecord) (w : World) :
  cleanupFunction w = Some acts ->
  selectObserverCallback selector mutationRecords w =
  Ok tt (afterScan selector acts (batchNodes mutationRecords) w).
Proof.
  revert w. induction mutationRecords as [|m rest IH]; intros w Hc.
  - unfold afterScan; simpl. now rewrite addChecks_nil.
  - simpl. unfold bind.
    rewrite (isSearchedElement_eval selector (target m) w Hc).
    unfold afterScan. simpl.
    destruct (isMatch selector (target m)) eqn:Hm; [reflexivity|].
    erewrite forAddedNodes_eval by exact Hc.
    unfold afterScan, scanFound. rewrite scan_app.
    destruct (scan selector (addedNodes m)) as [checked [n|]] eqn:Hs; simpl.
    + now rewrite addChecks_cons.
    + rewrite addChecks_cons. rewrite IH by exact Hc.
      unfold afterScan.
      destruct (scan selector (batchNodes rest)) as [more [n|]];
        now rewrite addChecks_app.
Qed.

End ObserverBatch.

(** ** Cleanup *)

Lemma stopTimer_idem (t : option Timer) : stopTimer (stopTimer t) = stopTimer t.
Proof. now destruct t. Qed.

Lemma runAction_idem (a : CleanupAction) (w : World) :
  runAction a (runAction a w) = runAction a w.
Proof.
  destruct a; destruct w as [r c i t o cf p tr]; simpl;
    unfold clearInterval, clearTimeout, disconnect, withIntervalT, withTimeoutT,
    withObserver; simpl; try now rewrite stopTimer_idem.
  now destruct o.
Qed.

Lemma runAction_comm (a b : CleanupAction) (w : World) :
  runAction a (runAction b w) = runAction b (runAction a w).
Proof. now destruct a, b. Qed.

Lemma runCleanup_runAction (acts : list CleanupAction) (a : CleanupAction) (w : World) :
  runCleanup acts (runAction a w) = runAction a (runCleanup acts w).
Proof.
  revert w. induction acts as [|b acts IH]; intros w; simpl; [reflexivity|].
  now rewrite runAction_comm, IH.
Qed.

Lemma runCleanup_idem (acts : list CleanupAction) (w : World) :
  runCleanup acts (runCleanup acts w) = runCleanup acts w.
Proof.
  revert w. induction acts as [|a acts IH]; intros w; simpl; [reflexivity|].
  rewrite runCleanup_runAction, IH, <- runCleanup_runAction.
  now rewrite runAction_idem.
Qed.

(** ** Dispatch *)

Section Dispatch.

Context {engine : SelectorEngine}.

Lemma select_early (selector : string) (strategy : StrategyArg) (w : World) (e : Node) :
  querySelector selector (ancestorNow w) = Some e ->
  select selector strategy w = Ok (Return (VElement e)) w.
Proof.
  intros H. unfold select, bind, querySelectorNow. now rewrite H.
Qed.

Lemma waitForRemovalFromDom_early (strategy : StrategyArg) (w : World) :
  isConnected w = false ->
  waitForRemovalFromDom strategy w = Ok (Return (VBool true)) w.
Proof.
  intros H. unfold waitForRemovalFromDom, bind, readIsConnected. now rewrite H.
Qed.

Lemma select_dispatch (selector : string) (strategy : StrategyArg) (w : World) :
  querySelector selector (ancestorNow w) = None ->
  select selector strategy w =
  match strategyParsed strategy with
  | None => Throw (TypeError "Cannot read properties of null") w
  | Some st =>
      if String.eqb (variant st) "interval" then
        Ok (AwaitCatch VNull)
           (armedInterval (SelectIntervalCb selector)
              (nullish (timeoutInMil st) 10000) (nullish (intervalInMil st) 50) w)
      else if String.eqb (variant st) "observer" then
        Ok (AwaitCatch VNull)
           (armedObserver (SelectObserverCb selector) OnAncestor
              (nullish (timeoutInMil st) 10000) w)
      else Ok (Return VUndefined) w
  end.
Proof.
  intros H. unfold select, bind, querySelectorNow. rewrite H.
  destruct (strategyParsed strategy) as [st|]; simpl; [|reflexivity].
  destruct (String.eqb (variant st) "interval"); [reflexivity|].
  destruct (String.eqb (variant st) "observer"); reflexivity.
Qed.

Lemma waitForRemovalFromDom_dispatch (strategy : StrategyArg) (w : World) :
  isConnected w = true ->
  waitForRemovalFromDom strategy w =
  match strategyParsed strategy with
  | None => Throw (TypeError "Cannot read properties of null") w
  | Some st =>
      if String.eqb (variant st) "interval" then
        Ok (AwaitCatch (VBool false))
           (armedInterval RemovalIntervalCb
              (nullish (timeoutInMil st) 10000) (nullish (intervalInMil st) 50) w)
      else if String.eqb (variant st) "observer" then
        Ok (AwaitCatch (VBool false))
           (armedObserver RemovalObserverCb OnDocument
              (nullish (timeoutInMil st) 10000) w)
      else Ok (Return VUndefined) w
  end.
Proof.
  intros H. unfold waitForRemovalFromDom, bind, readIsConnected. rewrite H. simpl.
  destruct (strategyParsed strategy) as [st|]; simpl; [|reflexivity].
  destruct (String.eqb (variant st) "interval"); [reflexivity|].
  destruct (String.eqb (variant st) "observer"); reflexivity.
Qed.

End Dispatch.

(** ** Preservation of the invariant *)

Lemma running_addChecks (ns : list Node) (w : World) :
  Running w -> Running (addChecks ns w).
Proof.
  intros [Hc Ht Hp Hn Hs Hu]. constructor; simpl; auto.
  - now rewrite settleCount_app, settleCount_checks, Hn.
  - now rewrite settledAfterCleanup_app, settledAfterCleanup_checks, Hs.
  - now rewrite noUncaught_app, noUncaught_checks, Hu.
Qed.

Lemma waiting_addChecks (ns : list Node) (w : World) :
  Waiting w -> Waiting (addChecks ns w).
Proof.
  intros [Hr Ht]. constructor; [now apply running_addChecks | exact Ht].
Qed.

Lemma running_clearTimeout (w : World) : Running w -> Running (clearTimeout w).
Proof.
  intros [Hc Ht Hp Hn Hs Hu]. constructor; auto.
  - unfold cleanupCovers, anyArmed in *.
    destruct Hc as [[E H]|[[E H]|[E H]]]; [left|right; left|right; right];
      (split; [exact E|]); world w; bools.
  - unfold timeoutHandlerOk in *. world w; simpl in *; intros tm E;
      inversion E; subst; simpl; try discriminate;
      apply (Ht _ eq_refl).
Qed.

(** Cleanup followed by [resolve] or [reject] ends the call. *)
Lemma done_delivered (acts : list CleanupAction) (v : value) (w : World) :
  Running w -> cleanupFunction w = Some acts ->
  Done (delivered acts v w).
Proof.
  intros [Hc Ht Hp Hn Hs Hu] Ha.
  assert (Hq : anyArmed (runCleanup acts w) = false).
  { unfold cleanupCovers, anyArmed in *.
    destruct Hc as [[E _]|[[E Ho]|[E Hi]]]; rewrite E in Ha; inversion Ha; subst;
      world w; simpl in *; bools. }
  unfold delivered, resolve, modify, settle. simpl.
  assert (Hp' : promise (runCleanup acts w) = Pending).
  { unfold cleanupCovers in Hc.
    destruct Hc as [[E _]|[[E _]|[E _]]]; rewrite E in Ha; inversion Ha; subst;
      exact Hp. }
  assert (Htr : trace (runCleanup acts w) = trace w).
  { destruct Hc as [[E _]|[[E _]|[E _]]]; rewrite E in Ha; inversion Ha; subst;
      reflexivity. }
  rewrite Hp', Hq, Htr. constructor; simpl.
  - discriminate.
  - exact Hq.
  - now rewrite settleCount_app, Hn.
  - now rewrite settledAfterCleanup_app, Hs.
  - now rewrite noUncaught_app, Hu.
Qed.

Lemma done_timedOut (acts : list CleanupAction) (w : World) :
  Running w -> cleanupFunction w = Some acts ->
  Done (timedOut acts w) /\ promise (timedOut acts w) = Rejected.
Proof.
  intros [Hc Ht Hp Hn Hs Hu] Ha.
  assert (Hq : anyArmed (runCleanup acts w) = false).
  { unfold cleanupCovers, anyArmed in *.
    destruct Hc as [[E _]|[[E Ho]|[E Hi]]]; rewrite E in Ha; inversion Ha; subst;
      world w; simpl in *; bools. }
  unfold timedOut, reject, modify, settle. simpl.
  assert (Hp' : promise (runCleanup acts w) = Pending).
  { destruct Hc as [[E _]|[[E _]|[E _]]]; rewrite E in Ha; inversion Ha; subst;
      exact Hp. }
  assert (Htr : trace (runCleanup acts w) = trace w).
  { destruct Hc as [[E _]|[[E _]|[E _]]]; rewrite E in Ha; inversion Ha; subst;
      reflexivity. }
  rewrite Hp', Hq, Htr. split; [constructor|]; simpl; auto.
  - discriminate.
  - now rewrite settleCount_app, Hn.
  - now rewrite settledAfterCleanup_app, Hs.
  - now rewrite noUncaught_app, Hu.
Qed.

Section Loop.

Context {engine : SelectorEngine}.

(** A callback run with the closure assigned never throws: it leaves the
    world as it was but for the nodes it checked, or it ends the call. *)
Lemma runCallback_step (cb : callback) (mutationRecords : list MutationRecord)
      (acts : list CleanupAction) (w : World) :
  Running w -> cleanupFunction w = Some acts ->
  exists w', runCallback cb mutationRecords w = Ok tt w' /\
             ((exists ns, w' = addChecks ns w) \/ Done w').
Proof.
  intros Hr Ha. destruct cb as [selector|selector| | |]; simpl.
  - rewrite (selectObserverCallback_eval selector mutationRecords w Ha).
    eexists; split; [reflexivity|]. unfold afterScan.
    destruct (scan selector (batchNodes mutationRecords)) as [checked [n|]].
    + right. apply done_delivered; [now apply running_addChecks | exact Ha].
    + left. now exists checked.
  - unfold selectIntervalCallback, bind, querySelectorNow.
    destruct (querySelector selector (ancestorNow w)) as [e|].
    + unfold callCleanupFunction. rewrite Ha.
      eexists; split; [reflexivity|]. right.
      now apply (done_delivered (VElement e) Hr).
    + exists w; split; [reflexivity|]. left. exists []. now rewrite addChecks_nil.
  - unfold removalObserverCallback, bind, readIsConnected.
    destruct (isConnected w); simpl.
    + exists w; split; [reflexivity|]. left. exists []. now rewrite addChecks_nil.
    + unfold callCleanupFunction. rewrite Ha.
      eexists; split; [reflexivity|]. right.
      now apply (done_delivered (VBool true) Hr).
  - unfold removalIntervalCallback, bind, readIsConnected.
    destruct (isConnected w); simpl.
    + exists w; split; [reflexivity|]. left. exists []. now rewrite addChecks_nil.
    + unfold callCleanupFunction. rewrite Ha.
      eexists; split; [reflexivity|]. right.
      now apply (done_delivered (VBool true) Hr).
  - unfold timeoutCallback, bind, callCleanupFunction. rewrite Ha.
    eexists; split; [reflexivity|]. right.
    now apply (done_timedOut Hr).
Qed.

Lemma timeoutCallback_eval (acts : list CleanupAction) (w : World) :
  cleanupFunction w = Some acts ->
  runCallback TimeoutCb [] w = Ok tt (timedOut acts w).
Proof.
  intros Ha. simpl. unfold timeoutCallback, bind, callCleanupFunction.
  now rewrite Ha.
Qed.

Lemma armed_has_cleanup (w : World) :
  cleanupCovers w -> anyArmed w = true ->
  exists acts, cleanupFunction w = Some acts.
Proof.
  intros [[_ H]|[[E _]|[E _]]] Ha; [congruence| |]; eauto.
Qed.

Lemma waiting_page (w w' : World) :
  Waiting w ->
  intervalT w' = intervalT w -> timeoutT w' = timeoutT w ->
  observer w' = observer w -> cleanupFunction w' = cleanupFunction w ->
  promise w' = promise w -> trace w' = trace w ->
  Waiting w'.
Proof.
  intros [[Hc Ht Hp Hn Hs Hu] Hw] Ei Et Eo Ec Ep Etr.
  constructor; [constructor|]; try congruence.
  - unfold cleanupCovers, anyArmed in *. rewrite Ei, Et, Eo, Ec. exact Hc.
  - unfold timeoutHandlerOk in *. now rewrite Et.
  - now rewrite Ec, Et.
Qed.

Lemma done_page (w w' : World) :
  Done w ->
  intervalT w' = intervalT w -> timeoutT w' = timeoutT w ->
  observer w' = observer w ->
  promise w' = promise w -> trace w' = trace w ->
  Done w'.
Proof.
  intros [Hp Ha Hn Hs Hu] Ei Et Eo Ep Etr.
  constructor; try congruence.
  unfold anyArmed in *. now rewrite Ei, Et, Eo.
Qed.

(** Once the call is over no event changes its promise or its trace. *)
Lemma fire_done (ev : event) (w : World) :
  Done w ->
  Done (fire ev w) /\ promise (fire ev w) = promise w /\ trace (fire ev w) = trace w.
Proof.
  intros Hd. pose proof (done_disarmed Hd) as Ha. unfold anyArmed in Ha.
  destruct ev as [root|b| | |recs]; simpl.
  - split; [|split]; try reflexivity.
    eapply done_page; [exact Hd|reflexivity..].
  - split; [|split]; try reflexivity.
    eapply done_page; [exact Hd|reflexivity..].
  - destruct (intervalT w) as [[h d a]|]; simpl in *; auto.
    destruct a; simpl in *; [discriminate|auto].
  - destruct (timeoutT w) as [[h d a]|]; simpl in *; auto.
    destruct a; simpl in *; auto.
    rewrite orb_true_r in Ha. discriminate.
  - destruct (observer w) as [[h t c]|]; simpl in *; auto.
    destruct c; simpl in *; auto.
    rewrite orb_true_r in Ha. discriminate.
Qed.

Lemma invoke_step (cb : callback) (mutationRecords : list MutationRecord)
      (acts : list CleanupAction) (w : World) :
  Running w -> cleanupFunction w = Some acts ->
  (exists ns, invoke cb mutationRecords w = addChecks ns w)
  \/ Done (invoke cb mutationRecords w).
Proof.
  intros Hr Ha. unfold invoke.
  destruct (runCallback_step cb mutationRecords Hr Ha) as (w' & -> & H).
  exact H.
Qed.

Lemma fire_waiting (ev : event) (w : World) :
  Waiting w ->
  (Waiting (fire ev w) /\ cleanupFunction (fire ev w) = cleanupFunction w)
  \/ Done (fire ev w).
Proof.
  intros Hw. pose proof Hw as [Hr Ht]. pose proof (running_covers Hr) as Hc.
  destruct ev as [root|b| | |recs]; simpl.
  - left. split; [|reflexivity]. eapply waiting_page; [exact Hw|reflexivity..].
  - left. split; [|reflexivity]. eapply waiting_page; [exact Hw|reflexivity..].
  - destruct (intervalT w) as [[h d a]|] eqn:Ei; [|now left].
    destruct a; simpl; [|now left].
    destruct (armed_has_cleanup Hc) as [acts Ha].
    { unfold anyArmed. now rewrite Ei. }
    destruct (invoke_step h [] Hr Ha) as [[ns ->]|Hd].
    + left. split; [now apply waiting_addChecks | reflexivity].
    + now right.
  - destruct (timeoutT w) as [[h d a]|] eqn:Et; [|now left].
    destruct a; simpl; [|now left].
    destruct (armed_has_cleanup Hc) as [acts Ha].
    { unfold anyArmed. rewrite Et. simpl. now rewrite orb_true_r. }
    assert (h = TimeoutCb) as -> by apply (running_timeout Hr Et).
    unfold invoke.
    rewrite (timeoutCallback_eval (clearTimeout w) Ha).
    right. now apply (done_timedOut (running_clearTimeout Hr)).
  - destruct (observer w) as [[h t c]|] eqn:Eo; [|now left].
    destruct c; simpl; [|now left].
    destruct (armed_has_cleanup Hc) as [acts Ha].
    { unfold anyArmed. rewrite Eo. simpl. now rewrite orb_true_r. }
    destruct (invoke_step h recs Hr Ha) as [[ns ->]|Hd].
    + left. split; [now apply waiting_addChecks | reflexivity].
    + now right.
Qed.

(** When the timeout comes due while the call is still waiting, the
    promise is rejected and the call is over. *)
Lemma fire_timeout_waiting (w : World) :
  Waiting w -> cleanupFunction w <> None ->
  Done (fire TimeoutFires w) /\ promise (fire TimeoutFires w) = Rejected.
Proof.
  intros [Hr Ht] Hc. specialize (Ht Hc).
  destruct (cleanupFunction w) as [acts|] eqn:Ha; [|congruence].
  simpl. destruct (timeoutT w) as [[h d a]|] eqn:Et; simpl in Ht; [|discriminate].
  subst a. assert (h = TimeoutCb) as -> by apply (running_timeout Hr Et).
  cbn [active handler]. unfold invoke.
  rewrite (timeoutCallback_eval (clearTimeout w) Ha).
  now apply (done_timedOut (running_clearTimeout Hr)).
Qed.

Lemma fire_inv (ev : event) (w : World) : Inv w -> Inv (fire ev w).
Proof.
  intros [Hw|Hd].
  - destruct (fire_waiting ev Hw) as [[H _]|H]; [now left | now right].
  - right. now apply fire_done.
Qed.

Lemma run_inv (evs : list event) (w : World) : Inv w -> Inv (run evs w).
Proof.
  revert w. induction evs as [|ev evs IH]; intros w Hi; simpl; [exact Hi|].
  apply IH. now apply fire_inv.
Qed.

Lemma run_app (a b : list event) (w : World) :
  run (a ++ b) w = run b (run a w).
Proof. unfold run. apply fold_left_app. Qed.

Lemma run_done (evs : list event) (w : World) :
  Done w -> promise (run evs w) = promise w /\ trace (run evs w) = trace w.
Proof.
  revert w. induction evs as [|ev evs IH]; intros w Hd; simpl; [auto|].
  destruct (fire_done ev Hd) as (Hd' & Hp & Ht).
  destruct (IH _ Hd') as [Hp' Ht']. split; congruence.
Qed.

Lemma run_waiting (evs : list event) (w : World) :
  Waiting w ->
  (Waiting (run evs w) /\ cleanupFunction (run evs w) = cleanupFunction w)
  \/ Done (run evs w).
Proof.
  revert w. induction evs as [|ev evs IH]; intros w Hw; simpl; [now left|].
  destruct (fire_waiting ev Hw) as [[Hw' Hc]|Hd].
  - destruct (IH _ Hw') as [[Hw'' Hc']|Hd]; [left|now right].
    split; [exact Hw''|congruence].
  - right. destruct (run_inv evs (or_intror Hd)) as [Hw'|Hd']; [|exact Hd'].
    destruct (run_done evs Hd) as [Hp _].
    pose proof (done_promise Hd) as Hn. rewrite <- Hp in Hn.
    now rewrite (running_promise (waiting_running Hw')) in Hn.
Qed.

(** Summary of the invariant, as the claims use it. *)
Lemma inv_facts (w : World) :
  Inv w ->
  (settleCount (trace w) <= 1)%nat /\
  settledAfterCleanup (trace w) = true /\
  noUncaught (trace w) = true /\
  (promise w = Pending \/ anyArmed w = false) /\
  (anyArmed w = false \/ cleanupFunction w <> None).
Proof.
  intros [[[Hc Ht Hp Hn Hs Hu] Hw]|[Hp Ha Hn Hs Hu]].
  - repeat split; auto; [lia|].
    destruct Hc as [[_ H]|[[E _]|[E _]]]; [now left| |]; right; congruence.
  - repeat split; auto. lia.
Qed.

Lemma waiting_fresh (root : Node) (conn : bool) : Waiting (freshWorld root conn).
Proof.
  constructor; [constructor|]; simpl; auto.
  - left. now split.
  - intros tm H. discriminate.
Qed.

Lemma waiting_armedInterval (cb : callback) (t i : number) (root : Node) (conn : bool) :
  Waiting (armedInterval cb t i (freshWorld root conn)).
Proof.
  constructor; [constructor|]; simpl; auto.
  - right. left. now split.
  - intros tm H. now inversion H.
Qed.

Lemma waiting_armedObserver (cb : callback) (tg : ObserveTarget) (t : number)
      (root : Node) (conn : bool) :
  Waiting (armedObserver cb tg t (freshWorld root conn)).
Proof.
  constructor; [constructor|]; simpl; auto.
  - right. right. now split.
  - intros tm H. now inversion H.
Qed.

End Loop.

(** ** The two entry points, from a page where nothing is registered *)

Section Calls.

Context {engine : SelectorEngine}.

Lemma select_shape (selector : string) (strategy : StrategyArg) (root : Node) (conn : bool) :
  callShape VNull (select selector strategy (freshWorld root conn)).
Proof.
  destruct (querySelector selector root) as [e|] eqn:Hq.
  - left. exists (VElement e), (freshWorld root conn).
    split; [now apply select_early | apply waiting_fresh].
  - rewrite select_dispatch by exact Hq.
    destruct (strategyParsed strategy) as [st|].
    + destruct (String.eqb (variant st) "interval").
      * right; right. eexists; split; [reflexivity|].
        split; [apply waiting_armedInterval | discriminate].
      * destruct (String.eqb (variant st) "observer").
        -- right; right. eexists; split; [reflexivity|].
           split; [apply waiting_armedObserver | discriminate].
        -- left. do 2 eexists; split; [reflexivity | apply waiting_fresh].
    + right; left. do 2 eexists; split; [reflexivity | apply waiting_fresh].
Qed.

Lemma waitForRemovalFromDom_shape (strategy : StrategyArg) (root : Node) (conn : bool) :
  callShape (VBool false) (waitForRemovalFromDom strategy (freshWorld root conn)).
Proof.
  destruct conn.
  - rewrite waitForRemovalFromDom_dispatch by reflexivity.
    destruct (strategyParsed strategy) as [st|].
    + destruct (String.eqb (variant st) "interval").
      * right; right. eexists; split; [reflexivity|].
        split; [apply waiting_armedInterval | discriminate].
      * destruct (String.eqb (variant st) "observer").
        -- right; right. eexists; split; [reflexivity|].
           split; [apply waiting_armedObserver | discriminate].
        -- left. do 2 eexists; split; [reflexivity | apply waiting_fresh].
    + right; left. do 2 eexists; split; [reflexivity | apply waiting_fresh].
  - left. exists (VBool true), (freshWorld root false).
    split; [now apply waitForRemovalFromDom_early | apply waiting_fresh].
Qed.

Lemma shape_inv (d : value) (r : result Call) (evs : list event) :
  callShape d r -> Inv (run evs (worldOf r)).
Proof.
  intros [(v & w & -> & Hw)|[(e & w & -> & Hw)|(w & -> & Hw & _)]];
    apply run_inv; now left.
Qed.

(** Once the caller has a result, later events do not change it. *)
Lemma shape_stable (d : value) (r : result Call) (evs : list event) :
  callShape d r ->
  observes r evs = StillPending
  \/ forall more, observes r (evs ++ more) = observes r evs.
Proof.
  intros [(v & w & -> & Hw)|[(e & w & -> & Hw)|(w & -> & Hw & Hc)]];
    [now right | now right |].
  simpl. destruct (run_waiting evs Hw) as [[Hw' _]|Hd].
  - left. now rewrite (running_promise (waiting_running Hw')).
  - right. intros more. rewrite run_app.
    destruct (run_done more Hd) as [Hp _]. now rewrite Hp.
Qed.

(** If the timeout comes due while the caller is still waiting, the caller
    gets the value of the [catch] branch, for good. *)
Lemma shape_timeout (d : value) (r : result Call) (evs more : list event) :
  callShape d r ->
  observes r evs = StillPending ->
  observes r (evs ++ TimeoutFires :: more) = Fulfilled d.
Proof.
  intros [(v & w & -> & Hw)|[(e & w & -> & Hw)|(w & -> & Hw & Hc)]] Hp;
    [discriminate Hp | discriminate Hp |].
  cbn [observes] in *. rewrite run_app.
  change (run (TimeoutFires :: more) (run evs w))
    with (run more (fire TimeoutFires (run evs w))).
  destruct (run_waiting evs Hw) as [[Hw' Hc']|Hd].
  - rewrite <- Hc' in Hc.
    destruct (fire_timeout_waiting Hw' Hc) as [Hd Hr].
    destruct (run_done more Hd) as [Hp' _].
    now rewrite Hp', Hr.
  - pose proof (done_promise Hd) as Hn.
    destruct (promise (run evs w)); [congruence|discriminate|discriminate].
Qed.

Lemma done_settledCleanly (w : World) :
  Done w -> settledCleanly (promise w) w.
Proof.
  intros [Hp Ha Hn Hs Hu]. repeat split; auto.
Qed.

(** The timeout coming due while the caller waits: cleanup runs, then
    [reject], and that is the one settlement of the call. *)
Lemma shape_timeout_clean (d : value) (r : result Call) (evs : list event) :
  callShape d r ->
  observes r evs = StillPending ->
  settledCleanly Rejected (run (evs ++ [TimeoutFires]) (worldOf r)).
Proof.
  intros [(v & w & -> & Hw)|[(e & w & -> & Hw)|(w & -> & Hw & Hc)]] Hp;
    [discriminate Hp | discriminate Hp |].
  cbn [observes worldOf] in *. rewrite run_app.
  change (run [TimeoutFires] (run evs w)) with (fire TimeoutFires (run evs w)).
  destruct (run_waiting evs Hw) as [[Hw' Hc']|Hd].
  - rewrite <- Hc' in Hc.
    destruct (fire_timeout_waiting Hw' Hc) as [Hd Hr].
    rewrite <- Hr. now apply done_settledCleanly.
  - pose proof (done_promise Hd) as Hn.
    destruct (promise (run evs w)); [congruence|discriminate|discriminate].
Qed.

Lemma observes_ok_not_rejected (c : Call) (w : World) (evs : list event) (e : error) :
  observes (Ok c w) evs <> RejectedWith e.
Proof.
  destruct c; simpl; [discriminate|].
  destruct (promise (run evs w)); discriminate.
Qed.

End Calls.

Lemma trace_runCleanup (acts : list CleanupAction) (w : World) :
  trace (runCleanup acts w) = trace w.
Proof.
  revert w. induction acts as [|a acts IH]; intros w; simpl; [reflexivity|].
  rewrite IH. now destruct a.
Qed.

Lemma promise_runCleanup (acts : list CleanupAction) (w : World) :
  promise (runCleanup acts w) = promise w.
Proof.
  revert w. induction acts as [|a acts IH]; intros w; simpl; [reflexivity|].
  rewrite IH. now destruct a.
Qed.

(** * The claims *)

Section Claims.

Context {engine : SelectorEngine}.

(** C3.  When a node under the root already matches the selector,
    [select] returns that node from its first statement and leaves the
    world exactly as it found it: no timer, interval or observer is
    created, whatever the strategy.  Likewise [waitForRemovalFromDom]
    returns [true] at once for an element that is not connected. *)
Theorem early_exit_arms_nothing (selector : string) (strategy : StrategyArg) (w : World) :
  (forall e, querySelector selector (ancestorNow w) = Some e ->
     select selector strategy w = Ok (Return (VElement e)) w /\
     forall evs, observes (select selector strategy w) evs = Fulfilled (VElement e)) /\
  (isConnected w = false ->
     waitForRemovalFromDom strategy w = Ok (Return (VBool true)) w /\
     forall evs, observes (waitForRemovalFromDom strategy w) evs = Fulfilled (VBool true)).
Proof.
  split.
  - intros e H. rewrite (select_early selector strategy w H). now split.
  - intros H. rewrite (waitForRemovalFromDom_early strategy w H). now split.
Qed.

(** C4.  If the timeout comes due while the caller is still waiting, the
    timeout callback rejects the promise, and the [catch] of the
    implementation turns that into a normal result: the caller gets [null]
    from [select] and [false] from [waitForRemovalFromDom], and no later
    event changes that.  This holds for every strategy that got the call
    as far as waiting. *)
Theorem timeout_gives_not_found (selector : string) (strategy : StrategyArg)
        (root : Node) (conn : bool) (evs more : list event) :
  let r1 := select selector strategy (freshWorld root conn) in
  let r2 := waitForRemovalFromDom strategy (freshWorld root conn) in
  (observes r1 evs = StillPending ->
   promise (run (evs ++ [TimeoutFires]) (worldOf r1)) = Rejected /\
   observes r1 (evs ++ TimeoutFires :: more) = Fulfilled VNull) /\
  (observes r2 evs = StillPending ->
   promise (run (evs ++ [TimeoutFires]) (worldOf r2)) = Rejected /\
   observes r2 (evs ++ TimeoutFires :: more) = Fulfilled (VBool false)).
Proof.
  intros r1 r2. split; intros Hp; split.
  - now destruct (shape_timeout_clean evs (select_shape selector strategy root conn) Hp).
  - apply shape_timeout; [apply select_shape | exact Hp].
  - now destruct (shape_timeout_clean evs
                    (waitForRemovalFromDom_shape strategy root conn) Hp).
  - apply shape_timeout; [apply waitForRemovalFromDom_shape | exact Hp].
Qed.

(** C6.  In one batch the observer callback of [select] hands nodes to
    [isSearchedElement] in the order of [batchNodes]: record by record, the
    target of a record before the nodes it added.  It stops at the first
    node that is an element and matches: the nodes checked are a prefix of
    the batch ending in that node, the promise is resolved with it, and no
    later child or record is looked at.  With no match every node of the
    batch is checked and nothing else happens. *)
Theorem first_match_in_batch_wins (selector : string) (acts : list CleanupAction)
        (mutationRecords : list MutationRecord) (w : World) :
  cleanupFunction w = Some acts ->
  exists checked rest w',
    batchNodes mutationRecords = checked ++ rest /\
    selectObserverCallback selector mutationRecords w = Ok tt w' /\
    ((rest = [] /\
      (forall m, In m checked -> isMatch selector m = false) /\
      w' = addChecks checked w /\
      trace w' = trace w ++ map ECheck checked)
     \/
     (exists before n armed,
        checked = before ++ [n] /\
        (forall m, In m before -> isMatch selector m = false) /\
        isMatch selector n = true /\
        w' = delivered acts (VElement n) (addChecks checked w) /\
        trace w' = trace w ++ map ECheck checked ++ [EResolve (VElement n) armed] /\
        (promise w = Pending -> promise w' = Resolved (VElement n)))).
Proof.
  intros Ha.
  rewrite (selectObserverCallback_eval selector mutationRecords w Ha).
  unfold afterScan.
  destruct (scan selector (batchNodes mutationRecords)) as [checked [n|]] eqn:Hs.
  - destruct (scan_found _ _ Hs) as (before & rest & Hc & Hb & Hn & Hbefore).
    exists checked, rest. eexists. split; [exact Hb|]. split; [reflexivity|].
    right. exists before, n.
    exists (anyArmed (runCleanup acts (addChecks checked w))).
    repeat split; auto.
    + unfold delivered, resolve, modify. simpl.
      rewrite trace_runCleanup. simpl. now rewrite app_assoc.
    + intros Hp. unfold delivered, resolve, modify, settle. simpl.
      rewrite promise_runCleanup. simpl. now rewrite Hp.
  - destruct (scan_none _ _ Hs) as [-> Hall].
    exists (batchNodes mutationRecords), []. eexists.
    split; [now rewrite app_nil_r|]. split; [reflexivity|].
    left. repeat split; auto.
Qed.

(** C7.  A bare number [N] as strategy is the descriptor
    [{variant: "interval", timeoutInMil: N}]: both entry points do with the
    one exactly what they do with the other, and when they do not return
    early that is the interval implementation with a timeout of [N] and an
    interval of 50. *)
Theorem number_is_interval_strategy (selector : string) (N : number) (w : World) :
  let descriptor := ArgObject (mkStrategy "interval" (Some N) None) in
  select selector (ArgNumber N) w = select selector descriptor w /\
  waitForRemovalFromDom (ArgNumber N) w = waitForRemovalFromDom descriptor w /\
  (querySelector selector (ancestorNow w) = None ->
   select selector (ArgNumber N) w =
   Ok (AwaitCatch VNull) (armedInterval (SelectIntervalCb selector) N 50 w) /\
   timeoutDelay (worldOf (select selector (ArgNumber N) w)) = Some N /\
   intervalDelay (worldOf (select selector (ArgNumber N) w)) = Some 50) /\
  (isConnected w = true ->
   waitForRemovalFromDom (ArgNumber N) w =
   Ok (AwaitCatch (VBool false)) (armedInterval RemovalIntervalCb N 50 w) /\
   timeoutDelay (worldOf (waitForRemovalFromDom (ArgNumber N) w)) = Some N /\
   intervalDelay (worldOf (waitForRemovalFromDom (ArgNumber N) w)) = Some 50).
Proof.
  intros descriptor. repeat split; try reflexivity.
  - now rewrite select_dispatch.
  - now rewrite select_dispatch.
  - now rewrite select_dispatch.
  - now rewrite waitForRemovalFromDom_dispatch.
  - now rewrite waitForRemovalFromDom_dispatch.
  - now rewrite waitForRemovalFromDom_dispatch.
Qed.

(** C8.  A descriptor that leaves [timeoutInMil] out gets a timeout of
    10000 in both strategies of both entry points, and an interval
    descriptor that leaves [intervalInMil] out gets an interval of 50; a
    field that is present is used as it is. *)
Theorem absent_options_take_defaults (selector : string)
        (t i : option number) (w : World) :
  let interval := ArgObject (mkStrategy "interval" t i) in
  let observer := ArgObject (mkStrategy "observer" t i) in
  (querySelector selector (ancestorNow w) = None ->
   timeoutDelay (worldOf (select selector interval w)) = Some (nullish t 10000) /\
   intervalDelay (worldOf (select selector interval w)) = Some (nullish i 50) /\
   timeoutDelay (worldOf (select selector observer w)) = Some (nullish t 10000)) /\
  (isConnected w = true ->
   timeoutDelay (worldOf (waitForRemovalFromDom interval w)) = Some (nullish t 10000) /\
   intervalDelay (worldOf (waitForRemovalFromDom interval w)) = Some (nullish i 50) /\
   timeoutDelay (worldOf (waitForRemovalFromDom observer w)) = Some (nullish t 10000)) /\
  nullish None 10000 = 10000 /\ nullish None 50 = 50.
Proof.
  intros interval observer. repeat split; try reflexivity.
  - now rewrite select_dispatch.
  - now rewrite select_dispatch.
  - now rewrite select_dispatch.
  - now rewrite waitForRemovalFromDom_dispatch.
  - now rewrite waitForRemovalFromDom_dispatch.
  - now rewrite waitForRemovalFromDom_dispatch.
Qed.

(** C9.  With a descriptor whose [variant] is neither ["interval"] nor
    ["observer"], and no early exit, both entry points fall out of the
    [switch]: they arm nothing and the caller gets [undefined]. *)
Theorem unknown_variant_gives_undefined (selector : string) (st : Strategy) (w : World) :
  String.eqb (variant st) "interval" = false ->
  String.eqb (variant st) "observer" = false ->
  (querySelector selector (ancestorNow w) = None ->
   select selector (ArgObject st) w = Ok (Return VUndefined) w /\
   forall evs, observes (select selector (ArgObject st) w) evs = Fulfilled VUndefined) /\
  (isConnected w = true ->
   waitForRemovalFromDom (ArgObject st) w = Ok (Return VUndefined) w /\
   forall evs, observes (waitForRemovalFromDom (ArgObject st) w) evs = Fulfilled VUndefined).
Proof.
  intros Hi Ho. split; intros H.
  - rewrite select_dispatch by exact H. simpl. rewrite Hi, Ho. now split.
  - rewrite waitForRemovalFromDom_dispatch by exact H. simpl. rewrite Hi, Ho.
    now split.
Qed.

(** C10.  On the early-exit path the strategy is never read: two calls
    that differ only in the strategy, [null] included, end in the same
    state with the same result. *)
Theorem early_exit_ignores_strategy (selector : string) (s1 s2 : StrategyArg) (w : World) :
  (forall e, querySelector selector (ancestorNow w) = Some e ->
     select selector s1 w = select selector s2 w /\
     forall evs1 evs2,
       observes (select selector s1 w) evs1 = observes (select selector s2 w) evs2) /\
  (isConnected w = false ->
     waitForRemovalFromDom s1 w = waitForRemovalFromDom s2 w /\
     forall evs1 evs2,
       observes (waitForRemovalFromDom s1 w) evs1 =
       observes (waitForRemovalFromDom s2 w) evs2).
Proof.
  split.
  - intros e H.
    rewrite (select_early selector s1 w H), (select_early selector s2 w H).
    now split.
  - intros H.
    rewrite (waitForRemovalFromDom_early s1 w H), (waitForRemovalFromDom_early s2 w H).
    now split.
Qed.


End Claims.

(** * More about the code *)

(** ** What callbacks leave alone *)

Section Frame.

Context {engine : SelectorEngine}.
Variable P : World -> Prop.
Hypothesis HP : Stable P.

Lemma keeps_ret (A : Type) (a : A) : keeps P (ret a).
Proof. intros w H. exact H. Qed.

Lemma keeps_bind (A B : Type) (m : exec A) (k : A -> exec B) :
  keeps P m -> (forall a, keeps P (k a)) -> keeps P (bind m k).
Proof.
  intros Hm Hk w H. unfold bind. specialize (Hm w H).
  destruct (m w) as [a w'|e w']; simpl in *; [now apply Hk | exact Hm].
Qed.

Lemma keeps_modify (f : World -> World) :
  (forall w, P w -> P (f w)) -> keeps P (modify f).
Proof. intros Hf w H. now apply Hf. Qed.

Lemma stable_settle (p : PromiseState) (w : World) : P w -> P (settle p w).
Proof.
  intros H. unfold settle. destruct (promise w); auto.
  now apply (stable_promise HP).
Qed.

Lemma stable_runCleanup (acts : list CleanupAction) (w : World) :
  P w -> P (runCleanup acts w).
Proof.
  revert w. induction acts as [|a acts IH]; intros w H; simpl; [exact H|].
  apply IH. now apply (stable_action HP).
Qed.

Lemma keeps_logCheck (n : Node) : keeps P (logCheck n).
Proof. apply keeps_modify. intros w H. now apply (stable_trace HP). Qed.

Lemma keeps_resolve (v : value) : keeps P (resolve v).
Proof.
  apply keeps_modify. intros w H.
  apply (stable_trace HP). now apply stable_settle.
Qed.

Lemma keeps_reject : keeps P reject.
Proof.
  apply keeps_modify. intros w H.
  apply (stable_trace HP). now apply stable_settle.
Qed.

Lemma keeps_callCleanupFunction : keeps P callCleanupFunction.
Proof.
  intros w H. unfold callCleanupFunction.
  destruct (cleanupFunction w) as [acts|]; simpl; [|exact H].
  now apply stable_runCleanup.
Qed.

Lemma keeps_isSearchedElement (selector : string) (n : Node) :
  keeps P (isSearchedElement selector n).
Proof.
  unfold isSearchedElement. apply keeps_bind; [apply keeps_logCheck|]. intros _.
  destruct (negb (isElement n)); [apply keeps_ret|].
  destruct (matches selector n); [|apply keeps_ret].
  apply keeps_bind; [apply keeps_callCleanupFunction|]. intros _.
  apply keeps_bind; [apply keeps_resolve|]. intros _. apply keeps_ret.
Qed.

Lemma keeps_forAddedNodes (selector : string) (children : list Node) :
  keeps P (forAddedNodes selector children).
Proof.
  induction children as [|c rest IH]; simpl; [apply keeps_ret|].
  apply keeps_bind; [apply keeps_isSearchedElement|].
  intros [|]; [apply keeps_ret | exact IH].
Qed.

Lemma keeps_selectObserverCallback (selector : string)
      (mutationRecords : list MutationRecord) :
  keeps P (selectObserverCallback selector mutationRecords).
Proof.
  induction mutationRecords as [|m rest IH]; simpl; [apply keeps_ret|].
  apply keeps_bind; [apply keeps_isSearchedElement|].
  intros [|]; [apply keeps_ret|].
  apply keeps_bind; [apply keeps_forAddedNodes|].
  intros [|]; [apply keeps_ret | exact IH].
Qed.

Lemma keeps_whenDisconnected : keeps P removalObserverCallback.
Proof.
  unfold removalObserverCallback. apply keeps_bind; [now intros w H|].
  intros [|]; simpl; [apply keeps_ret|].
  apply keeps_bind; [apply keeps_callCleanupFunction|]. intros _.
  apply keeps_resolve.
Qed.

Lemma keeps_runCallback (cb : callback) (mutationRecords : list MutationRecord) :
  keeps P (runCallback cb mutationRecords).
Proof.
  destruct cb as [selector|selector| | |]; simpl.
  - apply keeps_selectObserverCallback.
  - unfold selectIntervalCallback. apply keeps_bind; [now intros w H|].
    intros [e|]; [|apply keeps_ret].
    apply keeps_bind; [apply keeps_callCleanupFunction|]. intros _.
    apply keeps_resolve.
  - apply keeps_whenDisconnected.
  - apply keeps_whenDisconnected.
  - unfold timeoutCallback.
    apply keeps_bind; [apply keeps_callCleanupFunction|]. intros _.
    apply keeps_reject.
Qed.

Lemma invoke_keeps (cb : callback) (mutationRecords : list MutationRecord) (w : World) :
  P w -> P (invoke cb mutationRecords w).
Proof.
  intros H. unfold invoke. pose proof (keeps_runCallback cb mutationRecords H) as K.
  destruct (runCallback cb mutationRecords w) as [u w'|e w']; simpl in K; [exact K|].
  now apply (stable_trace HP).
Qed.

(** The three events that run program code keep [P]. *)
Lemma fire_callback_keeps (ev : event) (w : World) :
  match ev with DomChange _ | ConnectedChange _ => False | _ => True end ->
  P w -> P (fire ev w).
Proof.
  intros Hev H. destruct ev as [root|b| | |recs]; simpl; try contradiction.
  - destruct (intervalT w) as [[h d a]|]; [|exact H].
    destruct a; simpl; [now apply invoke_keeps | exact H].
  - destruct (timeoutT w) as [[h d a]|]; [|exact H].
    destruct a; simpl; [|exact H].
    apply invoke_keeps. now apply (stable_action HP ClearTimeout).
  - destruct (observer w) as [[h t c]|]; [|exact H].
    destruct c; simpl; [now apply invoke_keeps | exact H].
Qed.

Lemma fire_keeps (ev : event) (w : World) :
  (forall root u, P u -> P (withAncestorNow root u)) ->
  (forall b u, P u -> P (withIsConnected b u)) ->
  P w -> P (fire ev w).
Proof.
  intros Ha Hc H. destruct ev as [root|b| | |recs];
    try (apply fire_callback_keeps; [exact I | exact H]).
  - now apply Ha.
  - now apply Hc.
Qed.

Lemma run_keeps (evs : list event) (w : World) :
  (forall root u, P u -> P (withAncestorNow root u)) ->
  (forall b u, P u -> P (withIsConnected b u)) ->
  P w -> P (run evs w).
Proof.
  intros Ha Hc. revert w. induction evs as [|ev evs IH]; intros w H; simpl; [exact H|].
  apply IH. now apply fire_keeps.
Qed.

End Frame.

Lemma stable_page (p : Node * bool) : Stable (fun w => pageOf w = p).
Proof.
  constructor; try (intros; assumption).
  intros a w H. now destruct a.
Qed.

Lemma stable_noInterval : Stable (fun w => intervalT w = None).
Proof.
  constructor; try (intros; assumption).
  intros a w H. destruct a; simpl; auto. now rewrite H.
Qed.

Lemma stable_noObserver : Stable (fun w => observer w = None).
Proof.
  constructor; try (intros; assumption).
  intros a w H. destruct a; simpl; auto. now rewrite H.
Qed.

(** ** The page and the events a strategy does not listen to *)

Section Page.

Context {engine : SelectorEngine}.

Lemma pageOf_fire (ev : event) (w : World) :
  pageOf (fire ev w) = pageStep (pageOf w) ev.
Proof.
  destruct ev as [root|b| | |recs]; try reflexivity;
    apply (fire_callback_keeps (stable_page (pageOf w))); auto.
Qed.

(** X8.  The program only reads the page.  After any events, from any
    world, the subtree under the ancestor and the connectivity of the
    element are what the page events made them: no callback, whether it
    returns or throws, changes either. *)
Theorem page_is_read_only (evs : list event) (w : World) :
  pageOf (run evs w) = pageAfter evs (pageOf w).
Proof.
  revert w. induction evs as [|ev evs IH]; intros w; simpl; [reflexivity|].
  rewrite IH. unfold pageAfter. simpl. now rewrite pageOf_fire.
Qed.

Lemma run_without_observer (evs : list event) (w : World) :
  observer w = None ->
  run (filter (fun ev => negb (isNotification ev)) evs) w = run evs w.
Proof.
  revert w. induction evs as [|ev evs IH]; intros w H; simpl; [reflexivity|].
  assert (H' : observer (fire ev w) = None).
  { apply (fire_keeps stable_noObserver); auto. }
  destruct ev as [root|b| | |recs]; simpl; try (now apply IH).
  rewrite IH by exact H.
  simpl in H'. unfold fire. now rewrite H.
Qed.

Lemma run_without_interval (evs : list event) (w : World) :
  intervalT w = None ->
  run (filter (fun ev => negb (isTick ev)) evs) w = run evs w.
Proof.
  revert w. induction evs as [|ev evs IH]; intros w H; simpl; [reflexivity|].
  assert (H' : intervalT (fire ev w) = None).
  { apply (fire_keeps stable_noInterval); auto. }
  destruct ev as [root|b| | |recs]; simpl; try (now apply IH).
  rewrite IH by exact H.
  unfold fire. now rewrite H.
Qed.

Lemma usesInterval_parsed (strategy : StrategyArg) :
  usesInterval strategy = true ->
  exists st, strategyParsed strategy = Some st /\
             String.eqb (variant st) "interval" = true.
Proof.
  unfold usesInterval. destruct (strategyParsed strategy) as [st|]; [|discriminate].
  intros H. now exists st.
Qed.

Lemma usesObserver_parsed (strategy : StrategyArg) :
  usesObserver strategy = true ->
  exists st, strategyParsed strategy = Some st /\
             String.eqb (variant st) "interval" = false /\
             String.eqb (variant st) "observer" = true.
Proof.
  unfold usesObserver. destruct (strategyParsed strategy) as [st|]; [|discriminate].
  intros H. apply andb_true_iff in H. destruct H as [H1 H2].
  exists st. repeat split; auto. now apply negb_true_iff.
Qed.

(** How a call that takes the interval implementation starts. *)
Lemma select_interval_start (selector : string) (strategy : StrategyArg)
      (root : Node) (conn : bool) :
  usesInterval strategy = true ->
  querySelector selector root = None ->
  exists t i,
    select selector strategy (freshWorld root conn) =
    Ok (AwaitCatch VNull)
       (armedInterval (SelectIntervalCb selector) t i (freshWorld root conn)).
Proof.
  intros Hu Hq. destruct (usesInterval_parsed strategy Hu) as (st & Hs & Hv).
  rewrite select_dispatch by exact Hq. rewrite Hs, Hv. eauto.
Qed.

Lemma select_observer_start (selector : string) (strategy : StrategyArg)
      (root : Node) (conn : bool) :
  usesObserver strategy = true ->
  querySelector selector root = None ->
  exists t,
    select selector strategy (freshWorld root conn) =
    Ok (AwaitCatch VNull)
       (armedObserver (SelectObserverCb selector) OnAncestor t (freshWorld root conn)).
Proof.
  intros Hu Hq. destruct (usesObserver_parsed strategy Hu) as (st & Hs & Hv & Ho).
  rewrite select_dispatch by exact Hq. rewrite Hs, Hv, Ho. eauto.
Qed.

Lemma removal_interval_start (strategy : StrategyArg) (root : Node) :
  usesInterval strategy = true ->
  exists t i,
    waitForRemovalFromDom strategy (freshWorld root true) =
    Ok (AwaitCatch (VBool false))
       (armedInterval RemovalIntervalCb t i (freshWorld root true)).
Proof.
  intros Hu. destruct (usesInterval_parsed strategy Hu) as (st & Hs & Hv).
  rewrite waitForRemovalFromDom_dispatch by reflexivity. rewrite Hs, Hv. eauto.
Qed.

Lemma removal_observer_start (strategy : StrategyArg) (root : Node) :
  usesObserver strategy = true ->
  exists t,
    waitForRemovalFromDom strategy (freshWorld root true) =
    Ok (AwaitCatch (VBool false))
       (armedObserver RemovalObserverCb OnDocument t (freshWorld root true)).
Proof.
  intros Hu. destruct (usesObserver_parsed strategy Hu) as (st & Hs & Hv & Ho).
  rewrite waitForRemovalFromDom_dispatch by reflexivity. rewrite Hs, Hv, Ho. eauto.
Qed.

(** X9.  A call listens only to what its strategy registered.  With the
    interval implementation no observer exists, so notifications of
    mutations change nothing for the caller; with the observer
    implementation no interval exists, so interval ticks change nothing. *)
Theorem strategies_ignore_foreign_events (selector : string) (strategy : StrategyArg)
        (root : Node) (conn : bool) (evs : list event) :
  let r1 := select selector strategy (freshWorld root conn) in
  let r2 := waitForRemovalFromDom strategy (freshWorld root conn) in
  (usesInterval strategy = true ->
   observes r1 (filter (fun ev => negb (isNotification ev)) evs) = observes r1 evs /\
   observes r2 (filter (fun ev => negb (isNotification ev)) evs) = observes r2 evs) /\
  (usesObserver strategy = true ->
   observes r1 (filter (fun ev => negb (isTick ev)) evs) = observes r1 evs /\
   observes r2 (filter (fun ev => negb (isTick ev)) evs) = observes r2 evs).
Proof.
  intros r1 r2. subst r1 r2. split; intros Hu; split.
  - destruct (querySelector selector root) as [e|] eqn:Hq.
    + now rewrite (select_early selector strategy (freshWorld root conn) Hq).
    + destruct (select_interval_start selector strategy root conn Hu Hq) as (t & i & ->).
      cbn [observes]. now rewrite run_without_observer.
  - destruct conn.
    + destruct (removal_interval_start strategy root Hu) as (t & i & ->).
      cbn [observes]. now rewrite run_without_observer.
    + now rewrite waitForRemovalFromDom_early.
  - destruct (querySelector selector root) as [e|] eqn:Hq.
    + now rewrite (select_early selector strategy (freshWorld root conn) Hq).
    + destruct (select_observer_start selector strategy root conn Hu Hq) as (t & ->).
      cbn [observes]. now rewrite run_without_interval.
  - destruct conn.
    + destruct (removal_observer_start strategy root Hu) as (t & ->).
      cbn [observes]. now rewrite run_without_interval.
    + now rewrite waitForRemovalFromDom_early.
Qed.

End Page.

(** ** The event that settles a call *)

Section Decisive.

Context {engine : SelectorEngine}.

Lemma sameResources_refl (w : World) : sameResources w w.
Proof. repeat split. Qed.

Lemma sameResources_trans (a b c : World) :
  sameResources a b -> sameResources b c -> sameResources a c.
Proof.
  intros (A1 & A2 & A3 & A4) (B1 & B2 & B3 & B4).
  repeat split; congruence.
Qed.

(** An event that leaves the promise pending leaves the timers, the
    observer and the closure variable as they were. *)
Lemma fire_waiting_same (ev : event) (w : World) :
  Waiting w -> promise (fire ev w) = Pending ->
  Waiting (fire ev w) /\ sameResources w (fire ev w).
Proof.
  intros Hw Hp. pose proof Hw as [Hr Ht]. pose proof (running_covers Hr) as Hc.
  assert (Hdone : forall u, Done u -> promise u = Pending -> False).
  { intros u Hd E. now apply (done_promise Hd). }
  destruct ev as [root|b| | |recs]; simpl in *.
  - split; [|repeat split].
    eapply waiting_page; [exact Hw|reflexivity..].
  - split; [|repeat split].
    eapply waiting_page; [exact Hw|reflexivity..].
  - destruct (intervalT w) as [[h d a]|] eqn:Ei;
      [|split; [exact Hw|apply sameResources_refl]].
    destruct a; cbn [active handler] in *;
      [|split; [exact Hw|apply sameResources_refl]].
    destruct (armed_has_cleanup Hc) as [acts Ha].
    { unfold anyArmed. now rewrite Ei. }
    destruct (invoke_step h [] Hr Ha) as [[ns E]|Hd].
    + rewrite E. split; [now apply waiting_addChecks|].
      repeat split; simpl; auto.
    + exfalso. exact (Hdone _ Hd Hp).
  - destruct (timeoutT w) as [[h d a]|] eqn:Et;
      [|split; [exact Hw|apply sameResources_refl]].
    destruct a; cbn [active handler] in *;
      [|split; [exact Hw|apply sameResources_refl]].
    exfalso.
    assert (Hc' : cleanupFunction w <> None).
    { destruct (armed_has_cleanup Hc) as [acts Ha]; [|congruence].
      unfold anyArmed. rewrite Et. simpl. now rewrite orb_true_r. }
    destruct (fire_timeout_waiting Hw Hc') as [Hd _].
    apply (Hdone _ Hd). simpl. rewrite Et. exact Hp.
  - destruct (observer w) as [[h t c]|] eqn:Eo;
      [|split; [exact Hw|apply sameResources_refl]].
    destruct c; cbn [connected obsHandler] in *;
      [|split; [exact Hw|apply sameResources_refl]].
    destruct (armed_has_cleanup Hc) as [acts Ha].
    { unfold anyArmed. rewrite Eo. simpl. now rewrite orb_true_r. }
    destruct (invoke_step h recs Hr Ha) as [[ns E]|Hd].
    + rewrite E. split; [now apply waiting_addChecks|].
      repeat split; simpl; auto.
    + exfalso. exact (Hdone _ Hd Hp).
Qed.

Lemma run_pending_same (evs : list event) (w : World) :
  Waiting w -> promise (run evs w) = Pending ->
  Waiting (run evs w) /\ sameResources w (run evs w).
Proof.
  revert w. induction evs as [|ev evs IH]; intros w Hw Hp.
  - split; [exact Hw|apply sameResources_refl].
  - change (run (ev :: evs) w) with (run evs (fire ev w)) in *.
    destruct (fire_waiting ev Hw) as [[Hw' _]|Hd].
    + destruct (fire_waiting_same ev Hw (running_promise (waiting_running Hw')))
        as [_ Hs].
      destruct (IH _ Hw' Hp) as [Hw'' Hs'].
      split; [exact Hw''|]. eapply sameResources_trans; eassumption.
    + exfalso. destruct (run_done evs Hd) as [E _].
      apply (done_promise Hd). now rewrite <- E.
Qed.

(** A settled call was settled by one event, delivered while the call was
    waiting with the resources it started with. *)
Lemma run_decisive (evs : list event) (w : World) :
  Waiting w -> promise (run evs w) <> Pending ->
  exists pre ev post,
    evs = pre ++ ev :: post /\
    Waiting (run pre w) /\ sameResources w (run pre w) /\
    promise (fire ev (run pre w)) = promise (run evs w).
Proof.
  revert w. induction evs as [|ev evs IH]; intros w Hw Hp.
  - exfalso. apply Hp. exact (running_promise (waiting_running Hw)).
  - change (run (ev :: evs) w) with (run evs (fire ev w)) in *.
    destruct (fire_waiting ev Hw) as [[Hw' _]|Hd].
    + destruct (fire_waiting_same ev Hw (running_promise (waiting_running Hw')))
        as [_ Hs].
      destruct (IH _ Hw' Hp) as (pre & ev' & post & -> & Hw'' & Hs' & E).
      exists (ev :: pre), ev', post.
      change (run (ev :: pre) w) with (run pre (fire ev w)).
      split; [reflexivity|]. split; [exact Hw''|]. split; [|exact E].
      eapply sameResources_trans; eassumption.
    + exists [], ev, evs.
      split; [reflexivity|]. split; [exact Hw|]. split; [apply sameResources_refl|].
      destruct (run_done evs Hd) as [E _]. now rewrite E.
Qed.

(** What a detector callback does to a pending promise. *)
Lemma invoke_detector (cb : callback) (mutationRecords : list MutationRecord)
      (acts : list CleanupAction) (w : World) :
  cleanupFunction w = Some acts -> promise w = Pending -> cb <> TimeoutCb ->
  promise (invoke cb mutationRecords w) = verdict (detects cb w mutationRecords).
Proof.
  intros Ha Hp Hcb. unfold invoke.
  assert (Hdel : forall v u, promise u = Pending ->
                             promise (delivered acts v u) = Resolved v).
  { intros v u Hu. unfold delivered, resolve, modify, settle. simpl.
    rewrite promise_runCleanup. now rewrite Hu. }
  destruct cb as [selector|selector| | |]; simpl.
  - rewrite (selectObserverCallback_eval selector mutationRecords w Ha).
    unfold afterScan.
    destruct (scan selector (batchNodes mutationRecords)) as [checked [n|]]; simpl.
    + now apply Hdel.
    + exact Hp.
  - unfold selectIntervalCallback, bind, querySelectorNow.
    destruct (querySelector selector (ancestorNow w)) as [e|]; simpl; [|exact Hp].
    unfold callCleanupFunction. rewrite Ha. now apply (Hdel (VElement e)).
  - unfold removalObserverCallback, bind, readIsConnected.
    destruct (isConnected w); simpl; [exact Hp|].
    unfold callCleanupFunction. rewrite Ha. now apply (Hdel (VBool true)).
  - unfold removalIntervalCallback, bind, readIsConnected.
    destruct (isConnected w); simpl; [exact Hp|].
    unfold callCleanupFunction. rewrite Ha. now apply (Hdel (VBool true)).
  - congruence.
Qed.

Lemma invoke_timeout (acts : list CleanupAction) (w : World) :
  cleanupFunction w = Some acts -> promise w = Pending ->
  promise (invoke TimeoutCb [] w) = Rejected.
Proof.
  intros Ha Hp. unfold invoke. rewrite (timeoutCallback_eval w Ha).
  unfold timedOut, reject, modify, settle. simpl.
  rewrite promise_runCleanup. now rewrite Hp.
Qed.

(** One event in a world that still has the resources of an interval
    call, and of an observer call. *)
Lemma fire_intervalShape (cb : callback) (t i : number) (base w : World) (ev : event) :
  cb <> TimeoutCb -> observer base = None ->
  sameResources (armedInterval cb t i base) w -> promise w = Pending ->
  promise (fire ev w) =
  match ev with
  | IntervalFires => verdict (detects cb w [])
  | TimeoutFires => Rejected
  | _ => Pending
  end.
Proof.
  intros Hcb Hb (Ei & Et & Eo & Ec) Hp. simpl in Ei, Et, Eo, Ec.
  destruct ev as [root|b| | |recs]; simpl; auto.
  - rewrite Ei. cbn [active handler].
    now apply invoke_detector with (acts := [ClearInterval; ClearTimeout]).
  - rewrite Et. cbn [active handler].
    now apply invoke_timeout with (acts := [ClearInterval; ClearTimeout]).
  - rewrite Eo, Hb. exact Hp.
Qed.

Lemma fire_observerShape (cb : callback) (tg : ObserveTarget) (t : number)
      (base w : World) (ev : event) :
  cb <> TimeoutCb -> intervalT base = None ->
  sameResources (armedObserver cb tg t base) w -> promise w = Pending ->
  promise (fire ev w) =
  match ev with
  | ObserverNotified mutationRecords => verdict (detects cb w mutationRecords)
  | TimeoutFires => Rejected
  | _ => Pending
  end.
Proof.
  intros Hcb Hb (Ei & Et & Eo & Ec) Hp. simpl in Ei, Et, Eo, Ec.
  destruct ev as [root|b| | |recs]; simpl; auto.
  - rewrite Ei, Hb. exact Hp.
  - rewrite Et. cbn [active handler].
    now apply invoke_timeout with (acts := [ClearTimeout; Disconnect]).
  - rewrite Eo. cbn [connected obsHandler].
    now apply invoke_detector with (acts := [ClearTimeout; Disconnect]).
Qed.

End Decisive.

(** ** What the caller gets, and why *)

Section Outcomes.

Context {engine : SelectorEngine}.

Lemma settled_stays (w0 : World) (evs more : list event) (ev : event) :
  Waiting w0 ->
  promise (fire ev (run evs w0)) <> Pending ->
  promise (run (evs ++ ev :: more) w0) = promise (fire ev (run evs w0)).
Proof.
  intros Hw Hp. rewrite run_app.
  change (run (ev :: more) (run evs w0)) with (run more (fire ev (run evs w0))).
  assert (Hi : Inv (fire ev (run evs w0))).
  { apply fire_inv, run_inv. now left. }
  destruct Hi as [Hw'|Hd].
  - exfalso. apply Hp. exact (running_promise (waiting_running Hw')).
  - now destruct (run_done more Hd).
Qed.

Lemma observes_after (d : value) (w0 : World) (evs : list event) (ev : event)
      (o : option value) :
  Waiting w0 ->
  promise (fire ev (run evs w0)) = verdict o ->
  match o with
  | Some v => forall more,
      observes (Ok (AwaitCatch d) w0) (evs ++ ev :: more) = Fulfilled v
  | None => observes (Ok (AwaitCatch d) w0) (evs ++ [ev]) = StillPending
  end.
Proof.
  intros Hw Hp. destruct o as [v|]; simpl in Hp.
  - intros more. cbn [observes].
    rewrite settled_stays; [now rewrite Hp | exact Hw |].
    rewrite Hp. discriminate.
  - cbn [observes]. rewrite run_app.
    change (run [ev] (run evs w0)) with (fire ev (run evs w0)).
    now rewrite Hp.
Qed.

Lemma pending_of_observes (d : value) (w0 : World) (evs : list event) :
  observes (Ok (AwaitCatch d) w0) evs = StillPending ->
  promise (run evs w0) = Pending.
Proof.
  cbn [observes]. destruct (promise (run evs w0)); [reflexivity|discriminate..].
Qed.

Lemma ancestorNow_run (evs : list event) (w : World) :
  ancestorNow (run evs w) = fst (pageAfter evs (pageOf w)).
Proof. now rewrite <- page_is_read_only. Qed.

Lemma isConnected_run (evs : list event) (w : World) :
  isConnected (run evs w) = snd (pageAfter evs (pageOf w)).
Proof. now rewrite <- page_is_read_only. Qed.

(** The three ways a call on the interval implementation can stand. *)
Lemma interval_outcome (cb : callback) (t i : number) (root : Node) (conn : bool)
      (d : value) (evs : list event) :
  let w0 := armedInterval cb t i (freshWorld root conn) in
  cb <> TimeoutCb ->
  observes (Ok (AwaitCatch d) w0) evs = StillPending
  \/ (exists pre post v,
        evs = pre ++ IntervalFires :: post /\
        detects cb (run pre w0) [] = Some v /\
        observes (Ok (AwaitCatch d) w0) evs = Fulfilled v)
  \/ (exists pre post,
        evs = pre ++ TimeoutFires :: post /\
        observes (Ok (AwaitCatch d) w0) evs = Fulfilled d).
Proof.
  intros w0 Hcb. cbn [observes].
  destruct (promise (run evs w0)) as [|v|] eqn:Hp; [now left| |].
  - destruct (run_decisive evs (waiting_armedInterval cb t i root conn))
      as (pre & ev & post & -> & Hw & Hs & E).
    { fold w0. rewrite Hp. discriminate. }
    fold w0 in Hw, Hs, E. rewrite Hp in E.
    rewrite (fire_intervalShape ev Hcb (eq_refl : observer (freshWorld root conn) = None) Hs
               (running_promise (waiting_running Hw))) in E.
    destruct ev; try discriminate E.
    destruct (detects cb (run pre w0) []) as [v'|] eqn:D; [|discriminate E].
    simpl in E. inversion E; subst v'.
    right; left. now exists pre, post, v.
  - destruct (run_decisive evs (waiting_armedInterval cb t i root conn))
      as (pre & ev & post & -> & Hw & Hs & E).
    { fold w0. rewrite Hp. discriminate. }
    fold w0 in Hw, Hs, E. rewrite Hp in E.
    rewrite (fire_intervalShape ev Hcb (eq_refl : observer (freshWorld root conn) = None) Hs
               (running_promise (waiting_running Hw))) in E.
    destruct ev; try discriminate E.
    + destruct (detects cb (run pre w0) []); discriminate E.
    + right; right. now exists pre, post.
Qed.

Lemma observer_outcome (cb : callback) (tg : ObserveTarget) (t : number)
      (root : Node) (conn : bool) (d : value) (evs : list event) :
  let w0 := armedObserver cb tg t (freshWorld root conn) in
  cb <> TimeoutCb ->
  observes (Ok (AwaitCatch d) w0) evs = StillPending
  \/ (exists pre mutationRecords post v,
        evs = pre ++ ObserverNotified mutationRecords :: post /\
        detects cb (run pre w0) mutationRecords = Some v /\
        observes (Ok (AwaitCatch d) w0) evs = Fulfilled v)
  \/ (exists pre post,
        evs = pre ++ TimeoutFires :: post /\
        observes (Ok (AwaitCatch d) w0) evs = Fulfilled d).
Proof.
  intros w0 Hcb. cbn [observes].
  destruct (promise (run evs w0)) as [|v|] eqn:Hp; [now left| |].
  - destruct (run_decisive evs (waiting_armedObserver cb tg t root conn))
      as (pre & ev & post & -> & Hw & Hs & E).
    { fold w0. rewrite Hp. discriminate. }
    fold w0 in Hw, Hs, E. rewrite Hp in E.
    rewrite (fire_observerShape ev Hcb (eq_refl : intervalT (freshWorld root conn) = None) Hs
               (running_promise (waiting_running Hw))) in E.
    destruct ev as [| | | |recs]; try discriminate E.
    destruct (detects cb (run pre w0) recs) as [v'|] eqn:D; [|discriminate E].
    simpl in E. inversion E; subst v'.
    right; left. now exists pre, recs, post, v.
  - destruct (run_decisive evs (waiting_armedObserver cb tg t root conn))
      as (pre & ev & post & -> & Hw & Hs & E).
    { fold w0. rewrite Hp. discriminate. }
    fold w0 in Hw, Hs, E. rewrite Hp in E.
    rewrite (fire_observerShape ev Hcb (eq_refl : intervalT (freshWorld root conn) = None) Hs
               (running_promise (waiting_running Hw))) in E.
    destruct ev as [| | | |recs]; try discriminate E.
    + right; right. now exists pre, post.
    + destruct (detects cb (run pre w0) recs); discriminate E.
Qed.

(** One more event for a call that is still waiting. *)
Lemma interval_next (cb : callback) (t i : number) (root : Node) (conn : bool)
      (evs : list event) (ev : event) :
  let w0 := armedInterval cb t i (freshWorld root conn) in
  cb <> TimeoutCb -> promise (run evs w0) = Pending ->
  promise (fire ev (run evs w0)) =
  match ev with
  | IntervalFires => verdict (detects cb (run evs w0) [])
  | TimeoutFires => Rejected
  | _ => Pending
  end.
Proof.
  intros w0 Hcb Hp.
  destruct (run_pending_same evs (waiting_armedInterval cb t i root conn) Hp)
    as [Hw Hs].
  now apply (fire_intervalShape ev Hcb (eq_refl : observer (freshWorld root conn) = None) Hs).
Qed.

Lemma observer_next (cb : callback) (tg : ObserveTarget) (t : number)
      (root : Node) (conn : bool) (evs : list event) (ev : event) :
  let w0 := armedObserver cb tg t (freshWorld root conn) in
  cb <> TimeoutCb -> promise (run evs w0) = Pending ->
  promise (fire ev (run evs w0)) =
  match ev with
  | ObserverNotified mutationRecords => verdict (detects cb (run evs w0) mutationRecords)
  | TimeoutFires => Rejected
  | _ => Pending
  end.
Proof.
  intros w0 Hcb Hp.
  destruct (run_pending_same evs (waiting_armedObserver cb tg t root conn) Hp)
    as [Hw Hs].
  now apply (fire_observerShape ev Hcb (eq_refl : intervalT (freshWorld root conn) = None) Hs).
Qed.

End Outcomes.

(** ** Properties of the two entry points *)

Section EntryPoints.

Context {engine : SelectorEngine}.


Lemma pending_not_early (selector : string) (strategy : StrategyArg)
      (root : Node) (conn : bool) (evs : list event) :
  observes (select selector strategy (freshWorld root conn)) evs = StillPending ->
  querySelector selector root = None.
Proof.
  destruct (querySelector selector root) as [e|] eqn:Hq; [|reflexivity].
  rewrite (select_early selector strategy (freshWorld root conn) Hq). discriminate.
Qed.

Lemma pending_connected (strategy : StrategyArg) (root : Node) (conn : bool)
      (evs : list event) :
  observes (waitForRemovalFromDom strategy (freshWorld root conn)) evs = StillPending ->
  conn = true.
Proof.
  destruct conn; [reflexivity|].
  rewrite waitForRemovalFromDom_early by reflexivity. discriminate.
Qed.

(** X1.  [select] on the interval implementation, still waiting after
    some events: the next tick of the interval asks [querySelector] on
    the page as it then is.  If that finds an element the caller gets this
    element, whatever happens later; if it finds none the caller goes on
    waiting. *)
Theorem interval_tick_settles_select (selector : string) (strategy : StrategyArg)
        (root : Node) (conn : bool) (evs : list event) :
  let r := select selector strategy (freshWorld root conn) in
  usesInterval strategy = true ->
  observes r evs = StillPending ->
  match querySelector selector (fst (pageAfter evs (root, conn))) with
  | Some e => forall more,
      observes r (evs ++ IntervalFires :: more) = Fulfilled (VElement e)
  | None => observes r (evs ++ [IntervalFires]) = StillPending
  end.
Proof.
  intros r Hu Hp. subst r.
  pose proof (pending_not_early _ _ _ _ _ Hp) as Hq.
  destruct (select_interval_start selector strategy root conn Hu Hq) as (t & i & E).
  rewrite E in *. apply pending_of_observes in Hp.
  pose proof (@interval_next _ (SelectIntervalCb selector) t i root conn evs IntervalFires) as N.
  cbv zeta in N. specialize (N ltac:(discriminate) Hp).
  cbn [detects] in N. rewrite ancestorNow_run in N.
  change (pageOf (armedInterval (SelectIntervalCb selector) t i (freshWorld root conn)))
    with (root, conn) in N.
  pose proof (@observes_after _ VNull _ evs IntervalFires
                (option_map VElement
                   (querySelector selector (fst (pageAfter evs (root, conn)))))
                (waiting_armedInterval (SelectIntervalCb selector) t i root conn) N) as O.
  destruct (querySelector selector (fst (pageAfter evs (root, conn)))); exact O.
Qed.

(** X2.  [waitForRemovalFromDom] on the interval implementation, still
    waiting: at the next tick the caller gets [true] for good if the page
    has detached the element, and goes on waiting if not. *)
Theorem interval_tick_settles_removal (strategy : StrategyArg)
        (root : Node) (conn : bool) (evs : list event) :
  let r := waitForRemovalFromDom strategy (freshWorld root conn) in
  usesInterval strategy = true ->
  observes r evs = StillPending ->
  if snd (pageAfter evs (root, conn))
  then observes r (evs ++ [IntervalFires]) = StillPending
  else forall more, observes r (evs ++ IntervalFires :: more) = Fulfilled (VBool true).
Proof.
  intros r Hu Hp. subst r.
  pose proof (pending_connected _ _ _ _ Hp) as ->.
  destruct (removal_interval_start strategy root Hu) as (t & i & E).
  rewrite E in *. apply pending_of_observes in Hp.
  pose proof (@interval_next _ RemovalIntervalCb t i root true evs IntervalFires) as N.
  cbv zeta in N. specialize (N ltac:(discriminate) Hp).
  cbn [detects] in N. rewrite isConnected_run in N.
  change (pageOf (armedInterval RemovalIntervalCb t i (freshWorld root true)))
    with (root, true) in N.
  pose proof (@observes_after _ (VBool false) _ evs IntervalFires
                (if snd (pageAfter evs (root, true)) then None else Some (VBool true))
                (waiting_armedInterval RemovalIntervalCb t i root true) N) as O.
  destruct (snd (pageAfter evs (root, true))); exact O.
Qed.

(** X3.  [waitForRemovalFromDom] on the observer implementation, still
    waiting: any notification, whatever its records say, makes the
    callback look at the element; the caller gets [true] for good if the
    page has detached it, and goes on waiting if not. *)
Theorem notification_settles_removal (strategy : StrategyArg)
        (root : Node) (conn : bool) (evs : list event)
        (mutationRecords : list MutationRecord) :
  let r := waitForRemovalFromDom strategy (freshWorld root conn) in
  usesObserver strategy = true ->
  observes r evs = StillPending ->
  if snd (pageAfter evs (root, conn))
  then observes r (evs ++ [ObserverNotified mutationRecords]) = StillPending
  else forall more,
      observes r (evs ++ ObserverNotified mutationRecords :: more) = Fulfilled (VBool true).
Proof.
  intros r Hu Hp. subst r.
  pose proof (pending_connected _ _ _ _ Hp) as ->.
  destruct (removal_observer_start strategy root Hu) as (t & E).
  rewrite E in *. apply pending_of_observes in Hp.
  pose proof (@observer_next _ RemovalObserverCb OnDocument t root true evs
                (ObserverNotified mutationRecords)) as N.
  cbv zeta in N. specialize (N ltac:(discriminate) Hp).
  cbn [detects] in N. rewrite isConnected_run in N.
  change (pageOf (armedObserver RemovalObserverCb OnDocument t (freshWorld root true)))
    with (root, true) in N.
  pose proof (@observes_after _ (VBool false) _ evs (ObserverNotified mutationRecords)
                (if snd (pageAfter evs (root, true)) then None else Some (VBool true))
                (waiting_armedObserver RemovalObserverCb OnDocument t root true) N) as O.
  destruct (snd (pageAfter evs (root, true))); exact O.
Qed.

(** X4.  [select] on the observer implementation, still waiting: a
    notification whose batch holds a node that is an element and matches
    gives the caller the first such node of the batch, for good; a batch
    without one leaves the caller waiting, whatever the page holds. *)
Theorem notification_settles_select (selector : string) (strategy : StrategyArg)
        (root : Node) (conn : bool) (evs : list event)
        (mutationRecords : list MutationRecord) :
  let r := select selector strategy (freshWorld root conn) in
  usesObserver strategy = true ->
  observes r evs = StillPending ->
  match snd (scan selector (batchNodes mutationRecords)) with
  | Some n => forall more,
      observes r (evs ++ ObserverNotified mutationRecords :: more) = Fulfilled (VElement n)
  | None => observes r (evs ++ [ObserverNotified mutationRecords]) = StillPending
  end.
Proof.
  intros r Hu Hp. subst r.
  pose proof (pending_not_early _ _ _ _ _ Hp) as Hq.
  destruct (select_observer_start selector strategy root conn Hu Hq) as (t & E).
  rewrite E in *. apply pending_of_observes in Hp.
  pose proof (@observer_next _ (SelectObserverCb selector) OnAncestor t root conn evs
                (ObserverNotified mutationRecords)) as N.
  cbv zeta in N. specialize (N ltac:(discriminate) Hp).
  cbn [detects] in N.
  pose proof (@observes_after _ VNull _ evs (ObserverNotified mutationRecords)
                (option_map VElement (snd (scan selector (batchNodes mutationRecords))))
                (waiting_armedObserver (SelectObserverCb selector) OnAncestor t root conn) N)
    as O.
  destruct (snd (scan selector (batchNodes mutationRecords))); exact O.
Qed.

End EntryPoints.

(** ** The first path to fire *)

Section FirstToFire.

Context {engine : SelectorEngine}.

Lemma detector_clean (w0 : World) (evs : list event) (ev : event) (v : value) :
  Waiting w0 ->
  promise (fire ev (run evs w0)) = Resolved v ->
  settledCleanly (Resolved v) (run (evs ++ [ev]) w0).
Proof.
  intros Hw Hp. rewrite run_app.
  change (run [ev] (run evs w0)) with (fire ev (run evs w0)).
  assert (Hi : Inv (fire ev (run evs w0))) by (apply fire_inv, run_inv; now left).
  destruct Hi as [Hw'|Hd].
  - rewrite (running_promise (waiting_running Hw')) in Hp. discriminate.
  - rewrite <- Hp. now apply done_settledCleanly.
Qed.

Lemma select_interval_tick (selector : string) (strategy : StrategyArg)
      (root : Node) (conn : bool) (evs : list event) (e : Node) :
  let r := select selector strategy (freshWorld root conn) in
  usesInterval strategy = true ->
  observes r evs = StillPending ->
  querySelector selector (fst (pageAfter evs (root, conn))) = Some e ->
  settledCleanly (Resolved (VElement e)) (run (evs ++ [IntervalFires]) (worldOf r)).
Proof.
  intros r Hu Hp Hq. subst r.
  pose proof (pending_not_early _ _ _ _ _ Hp) as Hq0.
  destruct (select_interval_start selector strategy root conn Hu Hq0) as (t & i & E).
  rewrite E in *. apply pending_of_observes in Hp.
  pose proof (@interval_next _ (SelectIntervalCb selector) t i root conn evs IntervalFires) as N.
  cbv zeta in N. specialize (N ltac:(discriminate) Hp).
  cbn [detects] in N. rewrite ancestorNow_run in N.
  change (pageOf (armedInterval (SelectIntervalCb selector) t i (freshWorld root conn)))
    with (root, conn) in N.
  rewrite Hq in N.
  exact (detector_clean evs IntervalFires
           (waiting_armedInterval (SelectIntervalCb selector) t i root conn) N).
Qed.

Lemma select_observer_notification (selector : string) (strategy : StrategyArg)
      (root : Node) (conn : bool) (evs : list event)
      (mutationRecords : list MutationRecord) (n : Node) :
  let r := select selector strategy (freshWorld root conn) in
  usesObserver strategy = true ->
  observes r evs = StillPending ->
  snd (scan selector (batchNodes mutationRecords)) = Some n ->
  settledCleanly (Resolved (VElement n))
                 (run (evs ++ [ObserverNotified mutationRecords]) (worldOf r)).
Proof.
  intros r Hu Hp Hs. subst r.
  pose proof (pending_not_early _ _ _ _ _ Hp) as Hq0.
  destruct (select_observer_start selector strategy root conn Hu Hq0) as (t & E).
  rewrite E in *. apply pending_of_observes in Hp.
  pose proof (@observer_next _ (SelectObserverCb selector) OnAncestor t root conn evs
                (ObserverNotified mutationRecords)) as N.
  cbv zeta in N. specialize (N ltac:(discriminate) Hp).
  cbn [detects] in N. rewrite Hs in N.
  exact (detector_clean evs (ObserverNotified mutationRecords)
           (waiting_armedObserver (SelectObserverCb selector) OnAncestor t root conn) N).
Qed.

Lemma removal_interval_tick (strategy : StrategyArg)
      (root : Node) (conn : bool) (evs : list event) :
  let r := waitForRemovalFromDom strategy (freshWorld root conn) in
  usesInterval strategy = true ->
  observes r evs = StillPending ->
  snd (pageAfter evs (root, conn)) = false ->
  settledCleanly (Resolved (VBool true)) (run (evs ++ [IntervalFires]) (worldOf r)).
Proof.
  intros r Hu Hp Hc. subst r.
  pose proof (pending_connected _ _ _ _ Hp) as ->.
  destruct (removal_interval_start strategy root Hu) as (t & i & E).
  rewrite E in *. apply pending_of_observes in Hp.
  pose proof (@interval_next _ RemovalIntervalCb t i root true evs IntervalFires) as N.
  cbv zeta in N. specialize (N ltac:(discriminate) Hp).
  cbn [detects] in N. rewrite isConnected_run in N.
  change (pageOf (armedInterval RemovalIntervalCb t i (freshWorld root true)))
    with (root, true) in N.
  rewrite Hc in N.
  exact (detector_clean evs IntervalFires
           (waiting_armedInterval RemovalIntervalCb t i root true) N).
Qed.

Lemma removal_observer_notification (strategy : StrategyArg)
      (root : Node) (conn : bool) (evs : list event)
      (mutationRecords : list MutationRecord) :
  let r := waitForRemovalFromDom strategy (freshWorld root conn) in
  usesObserver strategy = true ->
  observes r evs = StillPending ->
  snd (pageAfter evs (root, conn)) = false ->
  settledCleanly (Resolved (VBool true))
                 (run (evs ++ [ObserverNotified mutationRecords]) (worldOf r)).
Proof.
  intros r Hu Hp Hc. subst r.
  pose proof (pending_connected _ _ _ _ Hp) as ->.
  destruct (removal_observer_start strategy root Hu) as (t & E).
  rewrite E in *. apply pending_of_observes in Hp.
  pose proof (@observer_next _ RemovalObserverCb OnDocument t root true evs
                (ObserverNotified mutationRecords)) as N.
  cbv zeta in N. specialize (N ltac:(discriminate) Hp).
  cbn [detects] in N. rewrite isConnected_run in N.
  change (pageOf (armedObserver RemovalObserverCb OnDocument t (freshWorld root true)))
    with (root, true) in N.
  rewrite Hc in N.
  exact (detector_clean evs (ObserverNotified mutationRecords)
           (waiting_armedObserver RemovalObserverCb OnDocument t root true) N).
Qed.

(** C1.  One resolution per call, produced by the first path to fire.

    Whatever the strategy and whatever the host delivers after a call of
    [select] or [waitForRemovalFromDom]: [resolve] and [reject] are called
    at most once in all, each time with no timer and no observer of the
    call left armed; no callback throws; a settled promise leaves nothing
    armed; and the result the caller has seen never changes.

    While the caller waits, whichever path fires first ends the call there
    and then.  The timeout coming due runs cleanup and rejects; an interval
    tick or a notification that finds the condition true runs cleanup and
    resolves.  Either way the world after that one event has nothing armed,
    so that the other path cannot fire any more, and holds the one call of
    [resolve] or [reject], made after cleanup.

    Running a cleanup closure a second time changes nothing. *)
Theorem at_most_one_resolution (selector : string) (strategy : StrategyArg)
        (root : Node) (conn : bool) (evs : list event) :
  let r1 := select selector strategy (freshWorld root conn) in
  let r2 := waitForRemovalFromDom strategy (freshWorld root conn) in
  let w1 := run evs (worldOf r1) in
  let w2 := run evs (worldOf r2) in
  let page := pageAfter evs (root, conn) in
  ((settleCount (trace w1) <= 1)%nat /\
   settledAfterCleanup (trace w1) = true /\
   noUncaught (trace w1) = true /\
   (promise w1 = Pending \/ anyArmed w1 = false) /\
   (observes r1 evs = StillPending
    \/ forall more, observes r1 (evs ++ more) = observes r1 evs)) /\
  ((settleCount (trace w2) <= 1)%nat /\
   settledAfterCleanup (trace w2) = true /\
   noUncaught (trace w2) = true /\
   (promise w2 = Pending \/ anyArmed w2 = false) /\
   (observes r2 evs = StillPending
    \/ forall more, observes r2 (evs ++ more) = observes r2 evs)) /\
  (observes r1 evs = StillPending ->
   settledCleanly Rejected (run (evs ++ [TimeoutFires]) (worldOf r1))) /\
  (observes r2 evs = StillPending ->
   settledCleanly Rejected (run (evs ++ [TimeoutFires]) (worldOf r2))) /\
  (usesInterval strategy = true -> observes r1 evs = StillPending ->
   forall e, querySelector selector (fst page) = Some e ->
     settledCleanly (Resolved (VElement e))
                    (run (evs ++ [IntervalFires]) (worldOf r1))) /\
  (usesObserver strategy = true -> observes r1 evs = StillPending ->
   forall mutationRecords n,
     snd (scan selector (batchNodes mutationRecords)) = Some n ->
     settledCleanly (Resolved (VElement n))
                    (run (evs ++ [ObserverNotified mutationRecords]) (worldOf r1))) /\
  (usesInterval strategy = true -> observes r2 evs = StillPending ->
   snd page = false ->
     settledCleanly (Resolved (VBool true))
                    (run (evs ++ [IntervalFires]) (worldOf r2))) /\
  (usesObserver strategy = true -> observes r2 evs = StillPending ->
   snd page = false ->
   forall mutationRecords,
     settledCleanly (Resolved (VBool true))
                    (run (evs ++ [ObserverNotified mutationRecords]) (worldOf r2))) /\
  (forall acts w, runCleanup acts (runCleanup acts w) = runCleanup acts w).
Proof.
  intros r1 r2 w1 w2 page.
  pose proof (select_shape selector strategy root conn) as S1.
  pose proof (waitForRemovalFromDom_shape strategy root conn) as S2.
  destruct (inv_facts (shape_inv evs S1)) as (A1 & B1 & U1 & C1 & _).
  destruct (inv_facts (shape_inv evs S2)) as (A2 & B2 & U2 & C2 & _).
  split.
  { split; [exact A1 | split; [exact B1 | split; [exact U1 | split; [exact C1|]]]].
    exact (shape_stable evs S1). }
  split.
  { split; [exact A2 | split; [exact B2 | split; [exact U2 | split; [exact C2|]]]].
    exact (shape_stable evs S2). }
  split; [exact (shape_timeout_clean evs S1)|].
  split; [exact (shape_timeout_clean evs S2)|].
  split.
  { intros Hu Hp e Hq. exact (select_interval_tick selector strategy root conn evs Hu Hp Hq). }
  split.
  { intros Hu Hp recs n Hs.
    exact (select_observer_notification selector strategy root conn evs recs Hu Hp Hs). }
  split.
  { intros Hu Hp Hc. exact (removal_interval_tick strategy root conn evs Hu Hp Hc). }
  split.
  { intros Hu Hp Hc recs.
    exact (removal_observer_notification strategy root conn evs recs Hu Hp Hc). }
  intros acts w. apply runCleanup_idem.
Qed.

End FirstToFire.

Section Results.

Context {engine : SelectorEngine}.

Lemma unknown_variant_not_typed (strategy : StrategyArg) (st : Strategy) :
  strategyParsed strategy = Some st ->
  String.eqb (variant st) "interval" = false ->
  String.eqb (variant st) "observer" = false ->
  wellTyped strategy = false /\ strategy <> ArgNull.
Proof.
  intros Hs Hi Ho. destruct strategy as [|n|s|]; simpl in *;
    inversion Hs; subst; simpl in *; try discriminate.
  rewrite Hi, Ho. split; [reflexivity|discriminate].
Qed.

(** The five ways [select] can start, from a page where nothing is
    registered. *)
Lemma select_cases (selector : string) (strategy : StrategyArg) (root : Node) (conn : bool) :
  let w := freshWorld root conn in
  let r := select selector strategy w in
  (exists e, querySelector selector root = Some e /\ r = Ok (Return (VElement e)) w)
  \/ (exists t i, r = Ok (AwaitCatch VNull) (armedInterval (SelectIntervalCb selector) t i w))
  \/ (exists t, r = Ok (AwaitCatch VNull)
                     (armedObserver (SelectObserverCb selector) OnAncestor t w))
  \/ (wellTyped strategy = false /\ strategy <> ArgNull /\
      querySelector selector root = None /\ r = Ok (Return VUndefined) w)
  \/ (strategy = ArgNull /\ querySelector selector root = None /\
      r = Throw (TypeError "Cannot read properties of null") w).
Proof.
  intros w r. subst r w.
  destruct (querySelector selector root) as [e|] eqn:Hq.
  - left. exists e. split; [reflexivity|]. now apply select_early.
  - right. rewrite select_dispatch by exact Hq.
    destruct (strategyParsed strategy) as [st|] eqn:Hs.
    + destruct (String.eqb (variant st) "interval") eqn:Hi; [left; eauto|].
      destruct (String.eqb (variant st) "observer") eqn:Ho; [right; left; eauto|].
      right; right; left.
      destruct (unknown_variant_not_typed strategy Hs Hi Ho) as [A B]. auto.
    + right; right; right. destruct strategy; try discriminate. auto.
Qed.

Lemma removal_cases (strategy : StrategyArg) (root : Node) (conn : bool) :
  let w := freshWorld root conn in
  let r := waitForRemovalFromDom strategy w in
  (conn = false /\ r = Ok (Return (VBool true)) w)
  \/ (exists t i, conn = true /\
        r = Ok (AwaitCatch (VBool false)) (armedInterval RemovalIntervalCb t i w))
  \/ (exists t, conn = true /\
        r = Ok (AwaitCatch (VBool false)) (armedObserver RemovalObserverCb OnDocument t w))
  \/ (wellTyped strategy = false /\ strategy <> ArgNull /\
      conn = true /\ r = Ok (Return VUndefined) w)
  \/ (strategy = ArgNull /\ conn = true /\
      r = Throw (TypeError "Cannot read properties of null") w).
Proof.
  intros w r. subst r w. destruct conn.
  - right. rewrite waitForRemovalFromDom_dispatch by reflexivity.
    destruct (strategyParsed strategy) as [st|] eqn:Hs.
    + destruct (String.eqb (variant st) "interval") eqn:Hi; [left; eauto|].
      destruct (String.eqb (variant st) "observer") eqn:Ho; [right; left; eauto|].
      right; right; left.
      destruct (unknown_variant_not_typed strategy Hs Hi Ho) as [A B]. auto.
    + right; right; right. destruct strategy; try discriminate. auto.
  - left. split; [reflexivity|]. now apply waitForRemovalFromDom_early.
Qed.


(** X6.  The not-found value comes from the timeout and from nothing
    else: a caller of [select] that got [null], and a caller of
    [waitForRemovalFromDom] that got [false], has had its timeout fire. *)
Theorem not_found_only_after_timeout (selector : string) (strategy : StrategyArg)
        (root : Node) (conn : bool) (evs : list event) :
  (observes (select selector strategy (freshWorld root conn)) evs = Fulfilled VNull ->
   In TimeoutFires evs) /\
  (observes (waitForRemovalFromDom strategy (freshWorld root conn)) evs
   = Fulfilled (VBool false) ->
   In TimeoutFires evs).
Proof.
  split.
  - destruct (select_cases selector strategy root conn)
      as [(e & Hq & ->)|[(t & i & ->)|[(t & ->)|[(_ & _ & _ & ->)|(_ & _ & ->)]]]];
      intros H; try discriminate H.
    + destruct (@interval_outcome _ (SelectIntervalCb selector) t i root conn VNull evs
                  ltac:(discriminate))
        as [E|[(pre & post & v & _ & D & E)|(pre & post & -> & E)]];
        [rewrite E in H; discriminate H| |apply in_elt].
      rewrite E in H. inversion H; subst v. cbn [detects] in D.
      destruct (querySelector selector _); discriminate D.
    + destruct (@observer_outcome _ (SelectObserverCb selector) OnAncestor t root conn
                  VNull evs ltac:(discriminate))
        as [E|[(pre & recs & post & v & _ & D & E)|(pre & post & -> & E)]];
        [rewrite E in H; discriminate H| |apply in_elt].
      rewrite E in H. inversion H; subst v. cbn [detects] in D.
      destruct (snd (scan selector (batchNodes recs))); discriminate D.
  - destruct (removal_cases strategy root conn)
      as [(_ & ->)|[(t & i & _ & ->)|[(t & _ & ->)|[(_ & _ & _ & ->)|(_ & _ & ->)]]]];
      intros H; try discriminate H.
    + destruct (@interval_outcome _ RemovalIntervalCb t i root conn (VBool false) evs
                  ltac:(discriminate))
        as [E|[(pre & post & v & _ & D & E)|(pre & post & -> & E)]];
        [rewrite E in H; discriminate H| |apply in_elt].
      rewrite E in H. inversion H; subst v. cbn [detects] in D.
      destruct (isConnected _); discriminate D.
    + destruct (@observer_outcome _ RemovalObserverCb OnDocument t root conn
                  (VBool false) evs ltac:(discriminate))
        as [E|[(pre & recs & post & v & _ & D & E)|(pre & post & -> & E)]];
        [rewrite E in H; discriminate H| |apply in_elt].
      rewrite E in H. inversion H; subst v. cbn [detects] in D.
      destruct (isConnected _); discriminate D.
Qed.

(** X7.  [waitForRemovalFromDom] says [true] only of an element that was
    detached: at the call, or after some of the events that the caller's
    result follows. *)
Theorem removal_true_means_detached (strategy : StrategyArg)
        (root : Node) (conn : bool) (evs : list event) :
  observes (waitForRemovalFromDom strategy (freshWorld root conn)) evs
  = Fulfilled (VBool true) ->
  exists pre post, evs = pre ++ post /\ snd (pageAfter pre (root, conn)) = false.
Proof.
  destruct (removal_cases strategy root conn)
    as [(-> & ->)|[(t & i & -> & ->)|[(t & -> & ->)|[(_ & _ & _ & ->)|(_ & _ & ->)]]]];
    intros H; try discriminate H.
  - now exists [], evs.
  - destruct (@interval_outcome _ RemovalIntervalCb t i root true (VBool false) evs
                ltac:(discriminate))
      as [E|[(pre & post & v & -> & D & E)|(pre & post & _ & E)]];
      rewrite E in H; try discriminate H.
    exists pre, (IntervalFires :: post). split; [reflexivity|].
    cbn [detects] in D. rewrite isConnected_run in D.
    change (pageOf (armedInterval RemovalIntervalCb t i (freshWorld root true)))
      with (root, true) in D.
    now destruct (snd (pageAfter pre (root, true))).
  - destruct (@observer_outcome _ RemovalObserverCb OnDocument t root true
                (VBool false) evs ltac:(discriminate))
      as [E|[(pre & recs & post & v & -> & D & E)|(pre & post & _ & E)]];
      rewrite E in H; try discriminate H.
    exists pre, (ObserverNotified recs :: post). split; [reflexivity|].
    cbn [detects] in D. rewrite isConnected_run in D.
    change (pageOf (armedObserver RemovalObserverCb OnDocument t (freshWorld root true)))
      with (root, true) in D.
    now destruct (snd (pageAfter pre (root, true))).
Qed.

(** X10.  Leaving the strategy out is passing the number 10000: both
    entry points end in the same state with the same result. *)
Theorem omitted_strategy_is_ten_seconds (selector : string) (w : World) :
  select selector ArgOmitted w = select selector (ArgNumber 10000) w /\
  waitForRemovalFromDom ArgOmitted w = waitForRemovalFromDom (ArgNumber 10000) w.
Proof.
  split.
  - destruct (querySelector selector (ancestorNow w)) as [e|] eqn:Hq.
    + now rewrite !(select_early selector _ w Hq).
    + now rewrite !select_dispatch by exact Hq.
  - destruct (isConnected w) eqn:Hc.
    + now rewrite !waitForRemovalFromDom_dispatch by exact Hc.
    + now rewrite !(waitForRemovalFromDom_early _ w Hc).
Qed.

(** X11.  A [null] strategy.  While the early check finds what it looks
    for, the strategy is not read and [null] does no harm (C10).  Once the
    early check has found nothing, reading [strategyParsed.variant] throws
    a [TypeError]: the call arms nothing and its caller sees a rejection,
    which no later event changes. *)
Theorem null_strategy_rejects (selector : string) (w : World) :
  (querySelector selector (ancestorNow w) = None ->
   exists msg,
     select selector ArgNull w = Throw (TypeError msg) w /\
     forall evs, observes (select selector ArgNull w) evs = RejectedWith (TypeError msg)) /\
  (isConnected w = true ->
   exists msg,
     waitForRemovalFromDom ArgNull w = Throw (TypeError msg) w /\
     forall evs,
       observes (waitForRemovalFromDom ArgNull w) evs = RejectedWith (TypeError msg)).
Proof.
  split; intros H.
  - rewrite select_dispatch by exact H. simpl. eexists. split; reflexivity.
  - rewrite waitForRemovalFromDom_dispatch by exact H. simpl. eexists. split; reflexivity.
Qed.

(** X12.  With a strategy of the declared type, what a call fulfils its
    promise with has the declared type: for [select] an element or
    [null], for [waitForRemovalFromDom] a boolean; [undefined] is never
    the result. *)
Theorem fulfilled_results_have_declared_type (selector : string)
        (strategy : StrategyArg) (root : Node) (conn : bool) (evs : list event)
        (v : value) :
  wellTyped strategy = true ->
  (observes (select selector strategy (freshWorld root conn)) evs = Fulfilled v ->
   v = VNull \/ exists n, v = VElement n) /\
  (observes (waitForRemovalFromDom strategy (freshWorld root conn)) evs = Fulfilled v ->
   exists b, v = VBool b).
Proof.
  intros Ht. split; intros H.
  - destruct (select_cases selector strategy root conn)
      as [(x & Hq & E)|[(t & i & E)|[(t & E)|[(A & _)|(-> & _)]]]];
      try congruence; try discriminate Ht; rewrite E in H.
    + inversion H. right. now exists x.
    + destruct (@interval_outcome _ (SelectIntervalCb selector) t i root conn VNull evs
                  ltac:(discriminate))
        as [E'|[(pre & post & u & _ & D & E')|(pre & post & _ & E')]];
        rewrite E' in H; inversion H; subst; auto.
      cbn [detects] in D.
      destruct (querySelector selector _) as [x|]; inversion D; subst.
      right. now exists x.
    + destruct (@observer_outcome _ (SelectObserverCb selector) OnAncestor t root conn
                  VNull evs ltac:(discriminate))
        as [E'|[(pre & recs & post & u & _ & D & E')|(pre & post & _ & E')]];
        rewrite E' in H; inversion H; subst; auto.
      cbn [detects] in D.
      destruct (snd (scan selector (batchNodes recs))) as [x|]; inversion D; subst.
      right. now exists x.
  - destruct (removal_cases strategy root conn)
      as [(_ & E)|[(t & i & _ & E)|[(t & _ & E)|[(A & _)|(-> & _)]]]];
      try congruence; try discriminate Ht; rewrite E in H.
    + inversion H. now exists true.
    + destruct (@interval_outcome _ RemovalIntervalCb t i root conn (VBool false) evs
                  ltac:(discriminate))
        as [E'|[(pre & post & u & _ & D & E')|(pre & post & _ & E')]];
        rewrite E' in H; inversion H; subst; eauto.
      cbn [detects] in D.
      destruct (isConnected _); inversion D; subst. now exists true.
    + destruct (@observer_outcome _ RemovalObserverCb OnDocument t root conn
                  (VBool false) evs ltac:(discriminate))
        as [E'|[(pre & recs & post & u & _ & D & E')|(pre & post & _ & E')]];
        rewrite E' in H; inversion H; subst; eauto.
      cbn [detects] in D.
      destruct (isConnected _); inversion D; subst. now exists true.
Qed.

(** X13.  The two implementations of [select] do not look for the same
    thing.  When the ancestor itself matches the selector and none of its
    descendants does, [querySelector] finds nothing, and a caller on the
    interval implementation goes on waiting; but the first notification
    whose first record has the ancestor as its target makes the observer
    implementation hand the ancestor itself to its caller. *)
Theorem observer_may_return_the_ancestor (selector : string)
        (observing polling : StrategyArg) (root root' : Node) (conn : bool)
        (added : list Node) (rest : list MutationRecord) :
  usesObserver observing = true ->
  usesInterval polling = true ->
  querySelector selector root = None ->
  querySelector selector root' = None ->
  isMatch selector root' = true ->
  (forall more,
     observes (select selector observing (freshWorld root conn))
              ([DomChange root'] ++ ObserverNotified (mkRecord root' added :: rest) :: more)
     = Fulfilled (VElement root')) /\
  observes (select selector polling (freshWorld root conn))
           ([DomChange root'] ++ [IntervalFires]) = StillPending.
Proof.
  intros Ho Hi Hq Hq' Hm. split.
  - destruct (select_observer_start selector observing root conn Ho Hq) as (t & ->).
    pose proof (@observer_next _ (SelectObserverCb selector) OnAncestor t root conn
                  [DomChange root'] (ObserverNotified (mkRecord root' added :: rest))) as N.
    cbv zeta in N. specialize (N ltac:(discriminate) eq_refl).
    cbn [detects batchNodes flat_map target addedNodes scan app] in N. rewrite Hm in N.
    exact (@observes_after _ VNull _ [DomChange root'] _ (Some (VElement root'))
             (waiting_armedObserver (SelectObserverCb selector) OnAncestor t root conn) N).
  - destruct (select_interval_start selector polling root conn Hi Hq) as (t & i & ->).
    pose proof (@interval_next _ (SelectIntervalCb selector) t i root conn
                  [DomChange root'] IntervalFires) as N.
    cbv zeta in N. specialize (N ltac:(discriminate) eq_refl).
    cbn [detects] in N.
    change (ancestorNow (run [DomChange root']
              (armedInterval (SelectIntervalCb selector) t i (freshWorld root conn))))
      with root' in N.
    rewrite Hq' in N.
    exact (@observes_after _ VNull _ [DomChange root'] _ None
             (waiting_armedInterval (SelectIntervalCb selector) t i root conn) N).
Qed.

End Results.

(** ** The earlier version *)

Section LegacyBridge.

Context {engine : SelectorEngine} {html : HtmlNamespace}.

Lemma stable_handlersOk (okObs : callback -> bool) : Stable (handlersOk okObs).
Proof.
  constructor; try (intros; assumption).
  intros a w (Hi & Ht & Ho). destruct a; simpl; unfold handlersOk; simpl.
  - rewrite Hi. auto.
  - repeat split; auto. intros tm E.
    destruct (timeoutT w) as [tm'|] eqn:Et; [|discriminate].
    inversion E; subst. simpl. now apply Ht.
  - repeat split; auto. intros ob E.
    destruct (observer w) as [ob'|] eqn:Eo; [|discriminate].
    inversion E; subst. simpl. now apply Ho.
Qed.

(** Under [htmlOnly] the observer callback of this file runs as the one
    of the earlier version. *)
Lemma legacy_isSearchedElement (selector : string) (n : Node) (w : World) :
  Legacy.isSearchedElement selector n w =
  isSearchedElement (engine := htmlOnly engine html) selector n w.
Proof.
  unfold Legacy.isSearchedElement, isSearchedElement, bind. simpl.
  unfold Legacy.isHTMLElement.
  destruct (isElement n), (inHtmlNamespace n), (matches selector n); reflexivity.
Qed.

Lemma legacy_forAddedNodes (selector : string) (children : list Node) (w : World) :
  Legacy.forAddedNodes selector children w =
  forAddedNodes (engine := htmlOnly engine html) selector children w.
Proof.
  revert w. induction children as [|c rest IH]; intros w; [reflexivity|].
  simpl. unfold bind. rewrite legacy_isSearchedElement.
  destruct (isSearchedElement selector c w) as [[|] w'|e w']; auto.
Qed.

Lemma legacy_selectObserverCallback (selector : string)
      (mutationRecords : list MutationRecord) (w : World) :
  Legacy.selectObserverCallback selector mutationRecords w =
  selectObserverCallback (engine := htmlOnly engine html) selector mutationRecords w.
Proof.
  revert w. induction mutationRecords as [|m rest IH]; intros w; [reflexivity|].
  simpl. unfold bind. rewrite legacy_isSearchedElement.
  destruct (isSearchedElement selector (target m) w) as [[|] w'|e w']; auto.
  rewrite legacy_forAddedNodes.
  destruct (forAddedNodes selector (addedNodes m) w') as [[|] w''|e w'']; auto.
Qed.

Lemma legacy_runCallback (cb : callback) (mutationRecords : list MutationRecord) (w : World) :
  isLegacyCallback cb = true ->
  Legacy.runCallback cb mutationRecords w =
  runCallback (engine := htmlOnly engine html) cb mutationRecords w.
Proof.
  destruct cb; simpl; try discriminate; intros _; try reflexivity.
  apply legacy_selectObserverCallback.
Qed.

(** On a batch whose elements are all [HTMLElement]s the two versions of
    the observer callback run alike under one engine. *)
Lemma html_isSearchedElement (selector : string) (n : Node) (w : World) :
  implb (isElement n) (inHtmlNamespace n) = true ->
  Legacy.isSearchedElement selector n w = isSearchedElement selector n w.
Proof.
  intros H. unfold Legacy.isSearchedElement, isSearchedElement, bind. simpl.
  unfold Legacy.isHTMLElement.
  destruct (isElement n), (inHtmlNamespace n); simpl in *; try discriminate; reflexivity.
Qed.

Lemma html_forAddedNodes (selector : string) (children : list Node) (w : World) :
  forallb (fun n => implb (isElement n) (inHtmlNamespace n)) children = true ->
  Legacy.forAddedNodes selector children w = forAddedNodes selector children w.
Proof.
  revert w. induction children as [|c rest IH]; intros w H; [reflexivity|].
  simpl in H. apply andb_true_iff in H. destruct H as [Hc Hr].
  simpl. unfold bind. rewrite html_isSearchedElement by exact Hc.
  destruct (isSearchedElement selector c w) as [[|] w'|e w']; auto.
Qed.

Lemma html_selectObserverCallback (selector : string)
      (mutationRecords : list MutationRecord) (w : World) :
  htmlBatch mutationRecords = true ->
  Legacy.selectObserverCallback selector mutationRecords w =
  selectObserverCallback selector mutationRecords w.
Proof.
  unfold htmlBatch. revert w.
  induction mutationRecords as [|m rest IH]; intros w H; [reflexivity|].
  simpl in H. apply andb_true_iff in H. destruct H as [Ht H].
  rewrite forallb_app in H. apply andb_true_iff in H. destruct H as [Ha Hr].
  simpl. unfold bind. rewrite html_isSearchedElement by exact Ht.
  destruct (isSearchedElement selector (target m) w) as [[|] w'|e w']; auto.
  rewrite html_forAddedNodes by exact Ha.
  destruct (forAddedNodes selector (addedNodes m) w') as [[|] w''|e w'']; auto.
Qed.

End LegacyBridge.

Section LegacyLoop.

Context {html : HtmlNamespace}.

(** The loop of the earlier version is the loop of this file, under any
    engine [E] for which the callbacks met on the way agree. *)
Lemma legacy_fire_bridge (engine E : SelectorEngine) (okObs : callback -> bool)
      (ev : event) (w : World) :
  handlersOk okObs w ->
  (forall cb mutationRecords w',
     okObs cb = true -> ev = ObserverNotified mutationRecords ->
     Legacy.runCallback (engine := engine) cb mutationRecords w' =
     runCallback (engine := E) cb mutationRecords w') ->
  Legacy.fire (engine := engine) ev w = fire (engine := E) ev w.
Proof.
  intros (Hi & Ht & Ho) Hcb. destruct ev as [root|b| | |recs]; simpl; auto.
  - now rewrite Hi.
  - destruct (timeoutT w) as [[h d a]|] eqn:Et; [|reflexivity].
    rewrite (Ht _ eq_refl). reflexivity.
  - destruct (observer w) as [[h t c]|] eqn:Eo; [|reflexivity].
    destruct c; simpl; [|reflexivity].
    unfold Legacy.invoke, invoke.
    now rewrite (Hcb h recs w (Ho _ eq_refl) eq_refl).
Qed.

Lemma handlersOk_fire (E : SelectorEngine) (okObs : callback -> bool)
      (ev : event) (w : World) :
  handlersOk okObs w -> handlersOk okObs (fire (engine := E) ev w).
Proof.
  intros H. apply (fire_keeps (stable_handlersOk okObs)); auto.
Qed.

Lemma legacy_run_bridge (engine E : SelectorEngine) (okObs : callback -> bool)
      (evs : list event) (w : World) :
  handlersOk okObs w ->
  (forall ev cb mutationRecords w',
     In ev evs -> okObs cb = true -> ev = ObserverNotified mutationRecords ->
     Legacy.runCallback (engine := engine) cb mutationRecords w' =
     runCallback (engine := E) cb mutationRecords w') ->
  Legacy.run (engine := engine) evs w = run (engine := E) evs w.
Proof.
  revert w. induction evs as [|ev evs IH]; intros w H Hcb; [reflexivity|].
  change (Legacy.run (engine := engine) (ev :: evs) w)
    with (Legacy.run (engine := engine) evs (Legacy.fire (engine := engine) ev w)).
  change (run (engine := E) (ev :: evs) w)
    with (run (engine := E) evs (fire (engine := E) ev w)).
  rewrite (@legacy_fire_bridge engine E okObs ev w H).
  - apply IH; [now apply handlersOk_fire|].
    intros ev' cb recs w' Hin. apply Hcb. now right.
  - intros cb recs w'. apply Hcb. now left.
Qed.

Lemma handlersOk_armedObserver (okObs : callback -> bool) (cb : callback)
      (tg : ObserveTarget) (t : number) (root : Node) (conn : bool) :
  okObs cb = true ->
  handlersOk okObs (armedObserver cb tg t (freshWorld root conn)).
Proof.
  intros H. repeat split; simpl.
  - intros tm E. now inversion E.
  - intros ob E. now inversion E.
Qed.

Lemma handlersOk_fresh (okObs : callback -> bool) (root : Node) (conn : bool) :
  handlersOk okObs (freshWorld root conn).
Proof. repeat split; simpl; intros x E; discriminate. Qed.

End LegacyLoop.

Section LegacyProperties.

Context {engine : SelectorEngine} {html : HtmlNamespace}.

Lemma legacy_select_start (selector : string) (t : option number) (w : World) :
  Legacy.select selector t w =
  match querySelector selector (ancestorNow w) with
  | Some e => Ok (Return (VElement e)) w
  | None => Ok (AwaitCatch VNull)
               (armedObserver (SelectObserverCb selector) OnAncestor (nullish t 10000) w)
  end.
Proof.
  unfold Legacy.select, bind, querySelectorNow.
  now destruct (querySelector selector (ancestorNow w)).
Qed.

Lemma legacy_removal_start (t : option number) (w : World) :
  Legacy.waitForRemovalFromDom t w =
  if isConnected w
  then Ok (AwaitCatch (VBool false))
          (armedObserver RemovalObserverCb OnDocument (nullish t 10000) w)
  else Ok (Return (VBool true)) w.
Proof.
  unfold Legacy.waitForRemovalFromDom, bind, readIsConnected.
  now destruct (isConnected w).
Qed.

Lemma legacy_run_htmlOnly (evs : list event) (w : World) :
  handlersOk isLegacyCallback w ->
  Legacy.run evs w = run (engine := htmlOnly engine html) evs w.
Proof.
  intros H. apply legacy_run_bridge with (okObs := isLegacyCallback); [exact H|].
  intros ev cb recs w' _ Hcb _. now apply legacy_runCallback.
Qed.

Lemma legacy_run_html (evs : list event) (w : World) :
  handlersOk isLegacyCallback w -> htmlEvents evs = true ->
  Legacy.run evs w = run evs w.
Proof.
  intros H He. apply legacy_run_bridge with (okObs := isLegacyCallback); [exact H|].
  intros ev cb recs w' Hin Hcb ->.
  unfold htmlEvents in He. rewrite forallb_forall in He. specialize (He _ Hin).
  destruct cb; simpl in *; try discriminate; try reflexivity.
  now apply html_selectObserverCallback.
Qed.

Lemma legacy_run_removal (evs : list event) (w : World) :
  handlersOk isRemovalObserver w ->
  Legacy.run evs w = run evs w.
Proof.
  intros H. apply legacy_run_bridge with (okObs := isRemovalObserver); [exact H|].
  intros ev cb recs w' _ Hcb _. destruct cb; simpl in *; try discriminate; reflexivity.
Qed.

(** The three calls of the earlier version, as calls of this file's
    loop under [htmlOnly]. *)
Lemma legacy_shape (d : value) (r : result Call) (evs : list event) :
  (exists v root conn, r = Ok (Return v) (freshWorld root conn))
  \/ (exists cb tg t root conn,
        isLegacyCallback cb = true /\
        r = Ok (AwaitCatch d) (armedObserver cb tg t (freshWorld root conn))) ->
  callShape d r /\
  Legacy.observes r evs = observes (engine := htmlOnly engine html) r evs /\
  Legacy.run evs (worldOf r) = run (engine := htmlOnly engine html) evs (worldOf r).
Proof.
  intros [(v & root & conn & ->)|(cb & tg & t & root & conn & Hcb & ->)].
  - split; [|split].
    + left. do 2 eexists. split; [reflexivity|apply waiting_fresh].
    + reflexivity.
    + apply legacy_run_htmlOnly, handlersOk_fresh.
  - assert (Hr : forall evs', Legacy.run evs' (armedObserver cb tg t (freshWorld root conn)) =
                 run (engine := htmlOnly engine html) evs'
                     (armedObserver cb tg t (freshWorld root conn))).
    { intros evs'. apply legacy_run_htmlOnly. now apply handlersOk_armedObserver. }
    split; [|split].
    + right; right. eexists. split; [reflexivity|].
      split; [apply waiting_armedObserver|discriminate].
    + cbn [Legacy.observes observes]. now rewrite Hr.
    + apply Hr.
Qed.

Lemma legacy_select_shape (selector : string) (t : option number) (root : Node) (conn : bool) :
  (exists v root' conn', Legacy.select selector t (freshWorld root conn)
                         = Ok (Return v) (freshWorld root' conn'))
  \/ (exists cb tg t' root' conn',
        isLegacyCallback cb = true /\
        Legacy.select selector t (freshWorld root conn)
        = Ok (AwaitCatch VNull) (armedObserver cb tg t' (freshWorld root' conn'))).
Proof.
  rewrite legacy_select_start. simpl.
  destruct (querySelector selector root) as [e|]; [left|right]; eauto 10.
  exists (SelectObserverCb selector). eauto 10.
Qed.

Lemma legacy_selectOnlyObserver_shape (selector : string) (t : option number)
      (root : Node) (conn : bool) :
  (exists v root' conn', Legacy.selectOnlyObserver selector t (freshWorld root conn)
                         = Ok (Return v) (freshWorld root' conn'))
  \/ (exists cb tg t' root' conn',
        isLegacyCallback cb = true /\
        Legacy.selectOnlyObserver selector t (freshWorld root conn)
        = Ok (AwaitCatch VNull) (armedObserver cb tg t' (freshWorld root' conn'))).
Proof.
  right. exists (SelectObserverCb selector). do 4 eexists. split; reflexivity.
Qed.

Lemma legacy_removal_shape (t : option number) (root : Node) (conn : bool) :
  (exists v root' conn', Legacy.waitForRemovalFromDom t (freshWorld root conn)
                         = Ok (Return v) (freshWorld root' conn'))
  \/ (exists cb tg t' root' conn',
        isLegacyCallback cb = true /\
        Legacy.waitForRemovalFromDom t (freshWorld root conn)
        = Ok (AwaitCatch (VBool false)) (armedObserver cb tg t' (freshWorld root' conn'))).
Proof.
  rewrite legacy_removal_start. destruct conn; simpl; [right|left]; eauto 10.
  exists RemovalObserverCb. eauto 10.
Qed.

(** X14.  The removal waiter of the earlier version is the observer
    strategy of this one: called with the same timeout the two end in the
    same state with the same result, and their callers see the same thing
    after any events. *)
Theorem legacy_removal_is_observer_strategy (t i : option number) (w : World)
        (root : Node) (conn : bool) (evs : list event) :
  let now := waitForRemovalFromDom (ArgObject (mkStrategy "observer" t i)) in
  Legacy.waitForRemovalFromDom t w = now w /\
  Legacy.observes (Legacy.waitForRemovalFromDom t (freshWorld root conn)) evs
  = observes (now (freshWorld root conn)) evs.
Proof.
  intros now. subst now.
  assert (E : forall u, Legacy.waitForRemovalFromDom t u =
                        waitForRemovalFromDom (ArgObject (mkStrategy "observer" t i)) u).
  { intros u. rewrite legacy_removal_start. destruct (isConnected u) eqn:Hc.
    - now rewrite waitForRemovalFromDom_dispatch by exact Hc.
    - now rewrite waitForRemovalFromDom_early by exact Hc. }
  split; [apply E|]. rewrite <- E. rewrite legacy_removal_start.
  destruct conn; simpl; [|reflexivity].
  rewrite legacy_run_removal; [reflexivity|].
  now apply handlersOk_armedObserver.
Qed.

(** X15.  [select] of the earlier version starts as the observer
    strategy of this one does, and as long as every element the observer
    is told of is an [HTMLElement] the two callers see the same thing. *)
Theorem legacy_select_agrees_on_html (selector : string) (t i : option number)
        (w : World) (root : Node) (conn : bool) (evs : list event) :
  let now := select selector (ArgObject (mkStrategy "observer" t i)) in
  Legacy.select selector t w = now w /\
  (htmlEvents evs = true ->
   Legacy.observes (Legacy.select selector t (freshWorld root conn)) evs
   = observes (now (freshWorld root conn)) evs).
Proof.
  intros now. subst now.
  assert (E : forall u, Legacy.select selector t u =
                        select selector (ArgObject (mkStrategy "observer" t i)) u).
  { intros u. rewrite legacy_select_start.
    destruct (querySelector selector (ancestorNow u)) as [e|] eqn:Hq.
    - now rewrite (select_early selector _ u Hq).
    - now rewrite select_dispatch by exact Hq. }
  split; [apply E|]. intros He. rewrite <- E. rewrite legacy_select_start. simpl.
  destruct (querySelector selector root); [reflexivity|].
  cbn [Legacy.observes observes].
  rewrite legacy_run_html; [reflexivity| |exact He].
  now apply handlersOk_armedObserver.
Qed.

(** X16.  Where the two differ: an element that matches the selector but
    is no [HTMLElement].  Told that it was added, the observer callback of
    the earlier version passes it over and the caller goes on waiting,
    while this version resolves with it; yet found by the early check, the
    earlier version returns it as well. *)
Theorem legacy_select_skips_other_elements (selector : string) (t i : option number)
        (root tgt n : Node) (conn : bool) :
  querySelector selector root = None ->
  isMatch selector tgt = false ->
  isElement n = true -> matches selector n = true -> inHtmlNamespace n = false ->
  let batch := [ObserverNotified [mkRecord tgt [n]]] in
  Legacy.observes (Legacy.select selector t (freshWorld root conn)) batch = StillPending /\
  observes (select selector (ArgObject (mkStrategy "observer" t i)) (freshWorld root conn))
           batch = Fulfilled (VElement n) /\
  (forall root', querySelector selector root' = Some n ->
     Legacy.observes (Legacy.select selector t (freshWorld root' conn)) []
     = Fulfilled (VElement n)).
Proof.
  intros Hq Ht He Hm Hh batch. subst batch. split; [|split].
  - rewrite legacy_select_start. simpl. rewrite Hq.
    cbn [Legacy.observes Legacy.run fold_left Legacy.fire armedObserver observer
         connected obsHandler].
    unfold Legacy.invoke. cbn [Legacy.runCallback Legacy.selectObserverCallback target
                               addedNodes Legacy.forAddedNodes].
    unfold bind, Legacy.isSearchedElement, bind, Legacy.isHTMLElement, isMatch in *.
    simpl. rewrite He, Hh. simpl.
    destruct (isElement tgt), (inHtmlNamespace tgt), (matches selector tgt);
      simpl in *; try discriminate; reflexivity.
  - rewrite select_dispatch by exact Hq. simpl.
    pose proof (@observer_next _ (SelectObserverCb selector) OnAncestor (nullish t 10000)
                  root conn [] (ObserverNotified [mkRecord tgt [n]])) as N.
    cbv zeta in N. specialize (N ltac:(discriminate) eq_refl).
    assert (Hs : snd (scan selector (batchNodes [mkRecord tgt [n]])) = Some n).
    { cbn [batchNodes flat_map target addedNodes scan app]. rewrite Ht.
      unfold isMatch. now rewrite He, Hm. }
    cbn [detects] in N. rewrite Hs in N.
    exact (@observes_after _ VNull _ [] _ (Some (VElement n))
             (waiting_armedObserver (SelectObserverCb selector) OnAncestor
                (nullish t 10000) root conn) N []).
  - intros root' Hq'. rewrite legacy_select_start. simpl. now rewrite Hq'.
Qed.

(** X17.  [selectOnlyObserver] of the earlier version, which is exported,
    has no early check.  Called on its own it does not look at what the
    page already holds: without a notification its caller gets nothing but
    [null], whatever is under the ancestor. *)
Theorem legacy_selectOnlyObserver_needs_a_notification (selector : string)
        (t : option number) (root : Node) (conn : bool) (evs : list event) :
  forallb (fun ev => negb (isNotification ev)) evs = true ->
  let o := Legacy.observes (Legacy.selectOnlyObserver selector t (freshWorld root conn)) evs in
  o = StillPending \/ o = Fulfilled VNull.
Proof.
  intros Hn o. subst o.
  destruct (legacy_shape evs (legacy_selectOnlyObserver_shape selector t root conn))
    as (_ & -> & _).
  change (Legacy.selectOnlyObserver selector t (freshWorld root conn))
    with (Ok (AwaitCatch VNull)
             (armedObserver (SelectObserverCb selector) OnAncestor (nullish t 10000)
                (freshWorld root conn))).
  destruct (@observer_outcome (htmlOnly engine html) (SelectObserverCb selector)
              OnAncestor (nullish t 10000) root conn VNull evs ltac:(discriminate))
    as [E|[(pre & recs & post & v & -> & D & E)|(pre & post & _ & E)]]; auto.
  exfalso. rewrite forallb_forall in Hn.
  specialize (Hn (ObserverNotified recs) (in_elt _ _ _)). discriminate Hn.
Qed.

(** X18.  The earlier version keeps the discipline of this one.  After
    any events following a call of [select], [selectOnlyObserver] or
    [waitForRemovalFromDom], [resolve] and [reject] were called at most
    once in all, each time with nothing left armed, and a settled promise
    leaves nothing armed.  After [select], whose first statement has put
    the selector to the host, and after [waitForRemovalFromDom], which has
    no selector, no callback has thrown either. *)
Theorem legacy_at_most_one_resolution (selector : string) (t : option number)
        (root : Node) (conn : bool) (evs : list event) :
  let once w :=
    (settleCount (trace w) <= 1)%nat /\
    settledAfterCleanup (trace w) = true /\
    (promise w = Pending \/ anyArmed w = false) in
  let w1 := Legacy.run evs (worldOf (Legacy.select selector t (freshWorld root conn))) in
  let w2 := Legacy.run evs
              (worldOf (Legacy.selectOnlyObserver selector t (freshWorld root conn))) in
  let w3 := Legacy.run evs (worldOf (Legacy.waitForRemovalFromDom t (freshWorld root conn))) in
  (once w1 /\ noUncaught (trace w1) = true) /\
  once w2 /\
  (once w3 /\ noUncaught (trace w3) = true).
Proof.
  intros once w1 w2 w3.
  assert (G : forall d r,
             (exists v root' conn', r = Ok (Return v) (freshWorld root' conn'))
             \/ (exists cb tg t' root' conn',
                   isLegacyCallback cb = true /\
                   r = Ok (AwaitCatch d) (armedObserver cb tg t' (freshWorld root' conn'))) ->
             once (Legacy.run evs (worldOf r)) /\
             noUncaught (trace (Legacy.run evs (worldOf r))) = true).
  { intros d r H. destruct (legacy_shape evs H) as (S & _ & ->).
    destruct (inv_facts (shape_inv (engine := htmlOnly engine html) evs S))
      as (A & B & C & D & _).
    repeat split; auto. }
  split; [|split].
  - apply (G VNull), legacy_select_shape.
  - apply (G VNull), legacy_selectOnlyObserver_shape.
  - apply (G (VBool false)), legacy_removal_shape.
Qed.

(** X19.  In the earlier version too the timeout ends a pending call with
    the not-found value, for good: [null] for [select] and
    [selectOnlyObserver], [false] for [waitForRemovalFromDom].
    [selectOnlyObserver] and [waitForRemovalFromDom], which put no
    selector to the host before they wait, never show their caller a
    rejection. *)
Theorem legacy_timeout_gives_not_found (selector : string) (t : option number)
        (root : Node) (conn : bool) (evs more : list event) :
  let r1 := Legacy.select selector t (freshWorld root conn) in
  let r2 := Legacy.selectOnlyObserver selector t (freshWorld root conn) in
  let r3 := Legacy.waitForRemovalFromDom t (freshWorld root conn) in
  (Legacy.observes r1 evs = StillPending ->
   Legacy.observes r1 (evs ++ TimeoutFires :: more) = Fulfilled VNull) /\
  (Legacy.observes r2 evs = StillPending ->
   Legacy.observes r2 (evs ++ TimeoutFires :: more) = Fulfilled VNull) /\
  (Legacy.observes r3 evs = StillPending ->
   Legacy.observes r3 (evs ++ TimeoutFires :: more) = Fulfilled (VBool false)) /\
  (forall e, Legacy.observes r2 evs <> RejectedWith e /\
             Legacy.observes r3 evs <> RejectedWith e).
Proof.
  intros r1 r2 r3.
  assert (G : forall d r,
             (exists v root' conn', r = Ok (Return v) (freshWorld root' conn'))
             \/ (exists cb tg t' root' conn',
                   isLegacyCallback cb = true /\
                   r = Ok (AwaitCatch d) (armedObserver cb tg t' (freshWorld root' conn'))) ->
             (Legacy.observes r evs = StillPending ->
              Legacy.observes r (evs ++ TimeoutFires :: more) = Fulfilled d) /\
             (forall e, Legacy.observes r evs <> RejectedWith e)).
  { intros d r H.
    destruct (legacy_shape evs H) as (S & E1 & _).
    destruct (legacy_shape (evs ++ TimeoutFires :: more) H) as (_ & E2 & _).
    rewrite E1, E2. split.
    - apply (shape_timeout (engine := htmlOnly engine html)). exact S.
    - intros e. destruct H as [(v & ? & ? & ->)|(cb & ? & ? & ? & ? & _ & ->)];
        apply observes_ok_not_rejected. }
  destruct (G VNull r1 (legacy_select_shape selector t root conn)) as [A1 _].
  destruct (G VNull r2 (legacy_selectOnlyObserver_shape selector t root conn)) as [A2 B2].
  destruct (G (VBool false) r3 (legacy_removal_shape t root conn)) as [A3 B3].
  repeat split; auto.
Qed.

End LegacyProperties.

Section Liveness.

Context {engine : SelectorEngine}.

Lemma timeout_ends_shape (d : value) (r : result Call) (evs : list event) :
  callShape d r -> In TimeoutFires evs -> observes r evs <> StillPending.
Proof.
  intros S Hin. destruct (in_split _ _ Hin) as (pre & post & ->).
  destruct (observes r pre) eqn:Hpre.
  - destruct (shape_stable pre S) as [E|E]; [congruence|].
    rewrite E, Hpre. discriminate.
  - destruct (shape_stable pre S) as [E|E]; [congruence|].
    rewrite E, Hpre. discriminate.
  - rewrite (shape_timeout pre post S Hpre). discriminate.
Qed.

(** X20.  The timeout bounds the wait.  Once the timeout of a call has
    fired its caller is no longer waiting, whatever the strategy and
    whatever else happened before or after. *)
Theorem timeout_ends_the_wait (selector : string) (strategy : StrategyArg)
        (root : Node) (conn : bool) (evs : list event) :
  In TimeoutFires evs ->
  observes (select selector strategy (freshWorld root conn)) evs <> StillPending /\
  observes (waitForRemovalFromDom strategy (freshWorld root conn)) evs <> StillPending.
Proof.
  intros Hin. split.
  - exact (timeout_ends_shape evs (select_shape selector strategy root conn) Hin).
  - exact (timeout_ends_shape evs (waitForRemovalFromDom_shape strategy root conn) Hin).
Qed.

End Liveness.

(** * The claims on the sample page *)

#[local] Existing Instance idEngine.

(** C2.  The observer strategy of [select] misses a match that is inserted
    below an added node.  The page appends a box that holds the matching
    span; the observer is told of the box, the callback checks the body and
    the box and nothing under the box, the promise stays pending although
    [querySelector] now finds the span, and the call ends in [null] at the
    timeout.  The interval strategy, after the same change of the page,
    resolves with the span at its next tick. *)
Lemma nested_match_is_missed_by_observer :
  let call := select "#test" observerStrategy (freshWorld emptyBody true) in
  let appended := [DomChange bodyWithBox; ObserverNotified [appendBoxRecord]] in
  querySelector "#test" emptyBody = None /\
  querySelector "#test" bodyWithBox = Some sampleSpan /\
  In sampleSpan (descendants sampleBox) /\
  trace (run appended (worldOf call)) = [ECheck bodyWithBox; ECheck sampleBox] /\
  observes call appended = StillPending /\
  observes call (appended ++ [TimeoutFires]) = Fulfilled VNull /\
  observes (select "#test" intervalStrategy (freshWorld emptyBody true))
           [DomChange bodyWithBox; IntervalFires] = Fulfilled (VElement sampleSpan).
Proof.
  repeat split; try reflexivity.
  simpl. auto.
Qed.

(** ** Instances of the theorems *)

Lemma early_exit_arms_nothing_witness :
  (querySelector "#test" (ancestorNow (freshWorld bodyWithSpan true)) = Some sampleSpan /\
   select "#test" observerStrategy (freshWorld bodyWithSpan true) =
   Ok (Return (VElement sampleSpan)) (freshWorld bodyWithSpan true)) /\
  (isConnected (freshWorld bodyWithSpan false) = false /\
   waitForRemovalFromDom observerStrategy (freshWorld bodyWithSpan false) =
   Ok (Return (VBool true)) (freshWorld bodyWithSpan false)).
Proof.
  split; (split; [reflexivity|]).
  - apply (proj1 (early_exit_arms_nothing "#test" observerStrategy
                    (freshWorld bodyWithSpan true)) sampleSpan).
    reflexivity.
  - apply (proj2 (early_exit_arms_nothing "#test" observerStrategy
                    (freshWorld bodyWithSpan false))).
    reflexivity.
Defined.

Lemma timeout_gives_not_found_witness :
  (observes (select "#test" (ArgNumber 1000) (freshWorld emptyBody true))
            [IntervalFires; IntervalFires] = StillPending /\
   observes (select "#test" (ArgNumber 1000) (freshWorld emptyBody true))
            ([IntervalFires; IntervalFires] ++ TimeoutFires :: [DomChange bodyWithSpan; IntervalFires])
   = Fulfilled VNull) /\
  (observes (waitForRemovalFromDom observerStrategy (freshWorld emptyBody true))
            [ObserverNotified []] = StillPending /\
   observes (waitForRemovalFromDom observerStrategy (freshWorld emptyBody true))
            ([ObserverNotified []] ++ TimeoutFires :: [ConnectedChange false; ObserverNotified []])
   = Fulfilled (VBool false)).
Proof.
  split; (split; [reflexivity|]).
  - apply (proj1 (timeout_gives_not_found "#test" (ArgNumber 1000) emptyBody true
                    [IntervalFires; IntervalFires] [DomChange bodyWithSpan; IntervalFires])).
    reflexivity.
  - apply (proj2 (timeout_gives_not_found "#test" observerStrategy emptyBody true
                    [ObserverNotified []]
                    [ConnectedChange false; ObserverNotified []])).
    reflexivity.
Defined.

Lemma first_match_in_batch_wins_witness :
  let w := worldOf (select "#test" observerStrategy (freshWorld emptyBody true)) in
  cleanupFunction w = Some [ClearTimeout; Disconnect] /\
  exists checked rest w',
    batchNodes [appendSpanRecord; appendBoxRecord] = checked ++ rest /\
    selectObserverCallback "#test" [appendSpanRecord; appendBoxRecord] w = Ok tt w' /\
    ((rest = [] /\
      (forall m, In m checked -> isMatch "#test" m = false) /\
      w' = addChecks checked w /\
      trace w' = trace w ++ map ECheck checked)
     \/
     (exists before n armed,
        checked = before ++ [n] /\
        (forall m, In m before -> isMatch "#test" m = false) /\
        isMatch "#test" n = true /\
        w' = delivered [ClearTimeout; Disconnect] (VElement n) (addChecks checked w) /\
        trace w' = trace w ++ map ECheck checked ++ [EResolve (VElement n) armed] /\
        (promise w = Pending -> promise w' = Resolved (VElement n)))).
Proof.
  intros w. split; [reflexivity|].
  apply (first_match_in_batch_wins "#test" [appendSpanRecord; appendBoxRecord] w).
  reflexivity.
Defined.

Lemma number_is_interval_strategy_witness :
  (querySelector "#test" (ancestorNow (freshWorld emptyBody true)) = None /\
   timeoutDelay (worldOf (select "#test" (ArgNumber 1000) (freshWorld emptyBody true)))
   = Some 1000 /\
   intervalDelay (worldOf (select "#test" (ArgNumber 1000) (freshWorld emptyBody true)))
   = Some 50) /\
  (isConnected (freshWorld emptyBody true) = true /\
   timeoutDelay (worldOf (waitForRemovalFromDom (ArgNumber 1000) (freshWorld emptyBody true)))
   = Some 1000 /\
   intervalDelay (worldOf (waitForRemovalFromDom (ArgNumber 1000) (freshWorld emptyBody true)))
   = Some 50).
Proof.
  pose proof (number_is_interval_strategy "#test" 1000 (freshWorld emptyBody true))
    as (_ & _ & H1 & H2).
  split; (split; [reflexivity|]).
  - apply (H1 eq_refl).
  - apply (H2 eq_refl).
Defined.

Lemma absent_options_take_defaults_witness :
  (querySelector "#test" (ancestorNow (freshWorld emptyBody true)) = None /\
   timeoutDelay (worldOf (select "#test" intervalStrategy (freshWorld emptyBody true)))
   = Some 10000 /\
   intervalDelay (worldOf (select "#test" intervalStrategy (freshWorld emptyBody true)))
   = Some 50 /\
   timeoutDelay (worldOf (select "#test" observerStrategy (freshWorld emptyBody true)))
   = Some 10000) /\
  (isConnected (freshWorld emptyBody true) = true /\
   timeoutDelay (worldOf (waitForRemovalFromDom intervalStrategy (freshWorld emptyBody true)))
   = Some 10000 /\
   intervalDelay (worldOf (waitForRemovalFromDom intervalStrategy (freshWorld emptyBody true)))
   = Some 50 /\
   timeoutDelay (worldOf (waitForRemovalFromDom observerStrategy (freshWorld emptyBody true)))
   = Some 10000).
Proof.
  pose proof (absent_options_take_defaults "#test" None None (freshWorld emptyBody true))
    as (H1 & H2 & _).
  split; (split; [reflexivity|]).
  - apply (H1 eq_refl).
  - apply (H2 eq_refl).
Defined.

Lemma unknown_variant_gives_undefined_witness :
  (String.eqb "polling" "interval" = false /\ String.eqb "polling" "observer" = false) /\
  (querySelector "#test" (ancestorNow (freshWorld emptyBody true)) = None /\
   select "#test" unknownStrategy (freshWorld emptyBody true) =
   Ok (Return VUndefined) (freshWorld emptyBody true)) /\
  (isConnected (freshWorld emptyBody true) = true /\
   waitForRemovalFromDom unknownStrategy (freshWorld emptyBody true) =
   Ok (Return VUndefined) (freshWorld emptyBody true)).
Proof.
  pose proof (unknown_variant_gives_undefined "#test"
                (mkStrategy "polling" (Some 1000) None) (freshWorld emptyBody true)
                eq_refl eq_refl) as (H1 & H2).
  split; [now split|]. split; (split; [reflexivity|]).
  - apply (H1 eq_refl).
  - apply (H2 eq_refl).
Defined.

Lemma early_exit_ignores_strategy_witness :
  (querySelector "#test" (ancestorNow (freshWorld bodyWithSpan true)) = Some sampleSpan /\
   select "#test" ArgNull (freshWorld bodyWithSpan true) =
   select "#test" (ArgNumber 1000) (freshWorld bodyWithSpan true)) /\
  (isConnected (freshWorld bodyWithSpan false) = false /\
   waitForRemovalFromDom ArgNull (freshWorld bodyWithSpan false) =
   waitForRemovalFromDom unknownStrategy (freshWorld bodyWithSpan false)).
Proof.
  split; (split; [reflexivity|]).
  - apply (proj1 (early_exit_ignores_strategy "#test" ArgNull (ArgNumber 1000)
                    (freshWorld bodyWithSpan true)) sampleSpan).
    reflexivity.
  - apply (proj2 (early_exit_ignores_strategy "#test" ArgNull unknownStrategy
                    (freshWorld bodyWithSpan false))).
    reflexivity.
Defined.


(** ** Instances of the further properties *)

#[local] Existing Instance sampleNamespace.

Lemma interval_tick_settles_select_witness :
  let evs := [IntervalFires; DomChange bodyWithBox] in
  let r := select "#test" (ArgNumber 1000) (freshWorld emptyBody true) in
  usesInterval (ArgNumber 1000) = true /\
  observes r evs = StillPending /\
  observes r (evs ++ IntervalFires :: [TimeoutFires]) = Fulfilled (VElement sampleSpan).
Proof.
  intros evs r. split; [reflexivity|]. split; [reflexivity|].
  exact (interval_tick_settles_select "#test" (ArgNumber 1000) emptyBody true evs
           eq_refl eq_refl [TimeoutFires]).
Defined.

Lemma interval_tick_settles_removal_witness :
  let evs := [IntervalFires; ConnectedChange false] in
  let r := waitForRemovalFromDom ArgOmitted (freshWorld emptyBody true) in
  usesInterval ArgOmitted = true /\
  observes r evs = StillPending /\
  observes r (evs ++ IntervalFires :: [TimeoutFires]) = Fulfilled (VBool true).
Proof.
  intros evs r. split; [reflexivity|]. split; [reflexivity|].
  exact (interval_tick_settles_removal ArgOmitted emptyBody true evs
           eq_refl eq_refl [TimeoutFires]).
Defined.

Lemma notification_settles_removal_witness :
  let evs := [ObserverNotified [appendSpanRecord]; ConnectedChange false] in
  let r := waitForRemovalFromDom observerStrategy (freshWorld emptyBody true) in
  usesObserver observerStrategy = true /\
  observes r evs = StillPending /\
  observes r (evs ++ ObserverNotified [] :: [TimeoutFires]) = Fulfilled (VBool true).
Proof.
  intros evs r. split; [reflexivity|]. split; [reflexivity|].
  exact (notification_settles_removal observerStrategy emptyBody true evs []
           eq_refl eq_refl [TimeoutFires]).
Defined.

Lemma notification_settles_select_witness :
  let evs := [DomChange bodyWithBox; ObserverNotified [appendBoxRecord]] in
  let r := select "#test" observerStrategy (freshWorld emptyBody true) in
  usesObserver observerStrategy = true /\
  observes r evs = StillPending /\
  observes r (evs ++ ObserverNotified [appendSpanRecord] :: [TimeoutFires])
  = Fulfilled (VElement sampleSpan).
Proof.
  intros evs r. split; [reflexivity|]. split; [reflexivity|].
  exact (notification_settles_select "#test" observerStrategy emptyBody true evs
           [appendSpanRecord] eq_refl eq_refl [TimeoutFires]).
Defined.

Lemma strategies_ignore_foreign_events_witness :
  let evs := [ObserverNotified [appendSpanRecord]; IntervalFires; TimeoutFires] in
  (usesInterval (ArgNumber 1000) = true /\
   observes (select "#test" (ArgNumber 1000) (freshWorld emptyBody true))
            (filter (fun ev => negb (isNotification ev)) evs)
   = observes (select "#test" (ArgNumber 1000) (freshWorld emptyBody true)) evs) /\
  (usesObserver observerStrategy = true /\
   observes (waitForRemovalFromDom observerStrategy (freshWorld emptyBody true))
            (filter (fun ev => negb (isTick ev)) evs)
   = observes (waitForRemovalFromDom observerStrategy (freshWorld emptyBody true)) evs).
Proof.
  intros evs. split; (split; [reflexivity|]).
  - exact (proj1 (proj1 (strategies_ignore_foreign_events "#test" (ArgNumber 1000)
                           emptyBody true evs) eq_refl)).
  - exact (proj2 (proj2 (strategies_ignore_foreign_events "#test" observerStrategy
                           emptyBody true evs) eq_refl)).
Defined.


Lemma not_found_only_after_timeout_witness :
  let evs := [IntervalFires; TimeoutFires; DomChange bodyWithSpan] in
  (observes (select "#test" ArgOmitted (freshWorld emptyBody true)) evs = Fulfilled VNull /\
   In TimeoutFires evs) /\
  (observes (waitForRemovalFromDom ArgOmitted (freshWorld emptyBody true)) evs
   = Fulfilled (VBool false) /\
   In TimeoutFires evs).
Proof.
  intros evs. split; (split; [reflexivity|]).
  - exact (proj1 (not_found_only_after_timeout "#test" ArgOmitted emptyBody true evs)
             eq_refl).
  - exact (proj2 (not_found_only_after_timeout "#test" ArgOmitted emptyBody true evs)
             eq_refl).
Defined.

Lemma removal_true_means_detached_witness :
  let evs := [IntervalFires; ConnectedChange false; IntervalFires] in
  observes (waitForRemovalFromDom ArgOmitted (freshWorld emptyBody true)) evs
  = Fulfilled (VBool true) /\
  exists pre post, evs = pre ++ post /\ snd (pageAfter pre (emptyBody, true)) = false.
Proof.
  intros evs. split; [reflexivity|].
  exact (removal_true_means_detached ArgOmitted emptyBody true evs eq_refl).
Defined.

Lemma null_strategy_rejects_witness :
  (querySelector "#test" (ancestorNow (freshWorld emptyBody true)) = None /\
   exists msg,
     select "#test" ArgNull (freshWorld emptyBody true)
     = Throw (TypeError msg) (freshWorld emptyBody true) /\
     forall evs, observes (select "#test" ArgNull (freshWorld emptyBody true)) evs
                 = RejectedWith (TypeError msg)) /\
  (isConnected (freshWorld emptyBody true) = true /\
   exists msg,
     waitForRemovalFromDom ArgNull (freshWorld emptyBody true)
     = Throw (TypeError msg) (freshWorld emptyBody true) /\
     forall evs, observes (waitForRemovalFromDom ArgNull (freshWorld emptyBody true)) evs
                 = RejectedWith (TypeError msg)).
Proof.
  split; (split; [reflexivity|]).
  - exact (proj1 (null_strategy_rejects "#test" (freshWorld emptyBody true)) eq_refl).
  - exact (proj2 (null_strategy_rejects "#test" (freshWorld emptyBody true)) eq_refl).
Defined.

Lemma fulfilled_results_have_declared_type_witness :
  let evs := [IntervalFires; TimeoutFires] in
  wellTyped (ArgNumber 1000) = true /\
  (observes (select "#test" (ArgNumber 1000) (freshWorld emptyBody true)) evs
   = Fulfilled VNull /\
   (VNull = VNull \/ exists n, VNull = VElement n)) /\
  (observes (waitForRemovalFromDom (ArgNumber 1000) (freshWorld emptyBody true)) evs
   = Fulfilled (VBool false) /\
   exists b, VBool false = VBool b).
Proof.
  intros evs. split; [reflexivity|]. split; (split; [reflexivity|]).
  - exact (proj1 (fulfilled_results_have_declared_type "#test" (ArgNumber 1000)
                    emptyBody true evs VNull eq_refl) eq_refl).
  - exact (proj2 (fulfilled_results_have_declared_type "#test" (ArgNumber 1000)
                    emptyBody true evs (VBool false) eq_refl) eq_refl).
Defined.

Lemma observer_may_return_the_ancestor_witness :
  (usesObserver observerStrategy = true /\ usesInterval intervalStrategy = true /\
   querySelector "#test" testDiv = None /\ querySelector "#test" testDivWithText = None /\
   isMatch "#test" testDivWithText = true) /\
  observes (select "#test" observerStrategy (freshWorld testDiv true))
           ([DomChange testDivWithText] ++ ObserverNotified [appendTextRecord] :: [])
  = Fulfilled (VElement testDivWithText) /\
  observes (select "#test" intervalStrategy (freshWorld testDiv true))
           ([DomChange testDivWithText] ++ [IntervalFires]) = StillPending.
Proof.
  pose proof (observer_may_return_the_ancestor "#test" observerStrategy intervalStrategy
                testDiv testDivWithText true [TextNode "hello"] []
                eq_refl eq_refl eq_refl eq_refl eq_refl) as [H1 H2].
  split; [repeat split|]. split; [exact (H1 [])|exact H2].
Defined.

Lemma legacy_select_agrees_on_html_witness :
  let evs := [DomChange bodyWithSpan; ObserverNotified [appendSpanRecord]] in
  htmlEvents evs = true /\
  Legacy.observes (Legacy.select "#test" None (freshWorld emptyBody true)) evs
  = observes (select "#test" observerStrategy (freshWorld emptyBody true)) evs /\
  Legacy.observes (Legacy.select "#test" None (freshWorld emptyBody true)) evs
  = Fulfilled (VElement sampleSpan).
Proof.
  intros evs. split; [reflexivity|]. split; [|reflexivity].
  exact (proj2 (legacy_select_agrees_on_html "#test" None None
                  (freshWorld emptyBody true) emptyBody true evs) eq_refl).
Defined.

Lemma legacy_select_skips_other_elements_witness :
  (querySelector "#test" emptyBody = None /\ isMatch "#test" bodyWithCircle = false /\
   isElement sampleCircle = true /\ matches "#test" sampleCircle = true /\
   inHtmlNamespace sampleCircle = false) /\
  Legacy.observes (Legacy.select "#test" None (freshWorld emptyBody true))
                  [ObserverNotified [appendCircleRecord]] = StillPending /\
  observes (select "#test" observerStrategy (freshWorld emptyBody true))
           [ObserverNotified [appendCircleRecord]] = Fulfilled (VElement sampleCircle) /\
  Legacy.observes (Legacy.select "#test" None (freshWorld bodyWithCircle true)) []
  = Fulfilled (VElement sampleCircle).
Proof.
  pose proof (legacy_select_skips_other_elements "#test" None None emptyBody
                bodyWithCircle sampleCircle true
                eq_refl eq_refl eq_refl eq_refl eq_refl) as (H1 & H2 & H3).
  split; [repeat split|]. split; [exact H1|]. split; [exact H2|].
  exact (H3 bodyWithCircle eq_refl).
Defined.

Lemma legacy_selectOnlyObserver_needs_a_notification_witness :
  let evs := [DomChange bodyWithSpan; TimeoutFires] in
  let o := Legacy.observes
             (Legacy.selectOnlyObserver "#test" (Some 1000) (freshWorld bodyWithSpan true)) evs in
  querySelector "#test" bodyWithSpan = Some sampleSpan /\
  forallb (fun ev => negb (isNotification ev)) evs = true /\
  (o = StillPending \/ o = Fulfilled VNull).
Proof.
  intros evs o. split; [reflexivity|]. split; [reflexivity|].
  exact (legacy_selectOnlyObserver_needs_a_notification "#test" (Some 1000)
           bodyWithSpan true evs eq_refl).
Defined.

Lemma legacy_timeout_gives_not_found_witness :
  let r1 := Legacy.select "#test" (Some 1000) (freshWorld emptyBody true) in
  let r3 := Legacy.waitForRemovalFromDom (Some 1000) (freshWorld emptyBody true) in
  (Legacy.observes r1 [ObserverNotified [appendBoxRecord]] = StillPending /\
   Legacy.observes r1 ([ObserverNotified [appendBoxRecord]] ++ TimeoutFires :: [])
   = Fulfilled VNull) /\
  (Legacy.observes r3 [ObserverNotified [appendBoxRecord]] = StillPending /\
   Legacy.observes r3 ([ObserverNotified [appendBoxRecord]] ++ TimeoutFires :: [])
   = Fulfilled (VBool false)).
Proof.
  intros r1 r3.
  pose proof (legacy_timeout_gives_not_found "#test" (Some 1000) emptyBody true
                [ObserverNotified [appendBoxRecord]] []) as (H1 & _ & H3 & _).
  split; (split; [reflexivity|]).
  - exact (H1 eq_refl).
  - exact (H3 eq_refl).
Defined.

Lemma timeout_ends_the_wait_witness :
  let evs := [IntervalFires; TimeoutFires; IntervalFires] in
  In TimeoutFires evs /\
  observes (select "#test" intervalStrategy (freshWorld emptyBody true)) evs <> StillPending /\
  observes (waitForRemovalFromDom intervalStrategy (freshWorld emptyBody true)) evs
  <> StillPending.
Proof.
  intros evs.
  assert (Hin : In TimeoutFires evs) by (right; left; reflexivity).
  split; [exact Hin|].
  exact (timeout_ends_the_wait "#test" intervalStrategy emptyBody true evs Hin).
Defined.

Lemma at_most_one_resolution_witness :
  let evs := [IntervalFires; DomChange bodyWithBox] in
  let r1 := select "#test" (ArgNumber 1000) (freshWorld emptyBody true) in
  let r2 := waitForRemovalFromDom observerStrategy (freshWorld emptyBody true) in
  let gone := [ObserverNotified [appendBoxRecord]; ConnectedChange false] in
  (observes r1 evs = StillPending /\
   settledCleanly Rejected (run (evs ++ [TimeoutFires]) (worldOf r1))) /\
  (usesInterval (ArgNumber 1000) = true /\
   querySelector "#test" (fst (pageAfter evs (emptyBody, true))) = Some sampleSpan /\
   settledCleanly (Resolved (VElement sampleSpan))
                  (run (evs ++ [IntervalFires]) (worldOf r1))) /\
  (usesObserver observerStrategy = true /\
   observes r2 gone = StillPending /\
   snd (pageAfter gone (emptyBody, true)) = false /\
   settledCleanly (Resolved (VBool true))
                  (run (gone ++ [ObserverNotified []]) (worldOf r2))).
Proof.
  intros evs r1 r2 gone.
  pose proof (at_most_one_resolution "#test" (ArgNumber 1000) emptyBody true evs)
    as (_ & _ & T1 & _ & D1 & _).
  pose proof (at_most_one_resolution "#test" observerStrategy emptyBody true gone)
    as (_ & _ & _ & _ & _ & _ & _ & D4 & _).
  split; [|split].
  - split; [reflexivity|]. exact (T1 eq_refl).
  - split; [reflexivity|]. split; [reflexivity|].
    exact (D1 eq_refl eq_refl sampleSpan eq_refl).
  - split; [reflexivity|]. split; [reflexivity|]. split; [reflexivity|].
    exact (D4 eq_refl eq_refl eq_refl []).
Defined.
